(** * youtube_comment_downloader_simple.py: a shallow embedding

    The downloader navigates untyped JSON by key search, drives a
    continuation work list against the platform's AJAX endpoint, joins
    side payloads onto comment entities and streams the records to a JSON
    file.  This development embeds those functions as Rocq functions over
    a JSON value type, with Python's exceptions as an error monad and the
    network as an oracle, and proves properties of them. *)

From Stdlib Require Import String Ascii.
From Stdlib Require Import ZArith NArith QArith Bool Lia List.
Import ListNotations.
Local Open Scope Z_scope.
Set Warnings "-register-all".

(** ** Python values *)

(** A Python [str] is a sequence of Unicode code points. *)
Definition pystr := list N.

(** [lit "abc"] is the string literal ['abc'] of the source. *)
Definition lit (s : string) : pystr :=
  map N_of_ascii (list_ascii_of_string s).
Arguments lit : simpl never.

Fixpoint pystr_eqb (a b : pystr) : bool :=
  match a, b with
  | [], [] => true
  | x :: a', y :: b' => N.eqb x y && pystr_eqb a' b'
  | _, _ => false
  end.

(** What [json.loads] and [response.json()] return: [None], [bool], [int],
    [str], [list] and [dict].  A [dict] keeps its items in insertion order
    and its keys are strings, pairwise distinct.  Numbers are never
    computed with by the downloader; they are modelled as integers. *)
Inductive json : Type :=
| JNull
| JBool (b : bool)
| JNum (z : Z)
| JStr (s : pystr)
| JArr (l : list json)
| JObj (kv : list (pystr * json)).

(** Exceptions the modelled code can raise. *)
Inductive exn : Type :=
| KeyError
| TypeError
| AttributeError
| IndexError
| ValueError
| RuntimeError (msg : pystr)
| RequestException.

Inductive result (A : Type) : Type :=
| Ok (a : A)
| Raise (e : exn).
Arguments Ok {A} a.
Arguments Raise {A} e.

Definition bind {A B} (m : result A) (f : A -> result B) : result B :=
  match m with
  | Ok a => f a
  | Raise e => Raise e
  end.

Notation "x <- m ;; f" := (bind m (fun x => f))
  (at level 61, m at next level, right associativity).

(** [bool(j)]: the truth value of a JSON value. *)
Definition truthy (j : json) : bool :=
  match j with
  | JNull => false
  | JBool b => b
  | JNum z => negb (z =? 0)
  | JStr s => match s with [] => false | _ => true end
  | JArr l => match l with [] => false | _ => true end
  | JObj kv => match kv with [] => false | _ => true end
  end.

(** Lookup in a [dict] with string keys. *)
Fixpoint lookup (kv : list (pystr * json)) (k : pystr) : option json :=
  match kv with
  | [] => None
  | (k', v) :: rest => if pystr_eqb k' k then Some v else lookup rest k
  end.

(** [j[k]] for a string [k]. *)
Definition getitem (j : json) (k : pystr) : result json :=
  match j with
  | JObj kv => match lookup kv k with
               | Some v => Ok v
               | None => Raise KeyError
               end
  | _ => Raise TypeError
  end.

(** [j.get(k, d)]: only a [dict] has the method. *)
Definition get (j : json) (k : pystr) (d : json) : result json :=
  match j with
  | JObj kv => match lookup kv k with
               | Some v => Ok v
               | None => Ok d
               end
  | _ => Raise AttributeError
  end.

(** [next(iter(l), d)]. *)
Definition next_or {A} (l : list A) (d : A) : A :=
  match l with
  | [] => d
  | x :: _ => x
  end.

(** [list.pop()]: removes and returns the last item. *)
Fixpoint pop {A} (l : list A) : option (A * list A) :=
  match l with
  | [] => None
  | x :: r => match pop r with
              | None => Some (x, [])
              | Some (y, r') => Some (y, x :: r')
              end
  end.

(** ** search_dict *)

(** The [for key, value in current_item.items()] loop: the values under
    [search_key] are yielded, the others are pushed on the stack. *)
Fixpoint scan_items (items : list (pystr * json)) (search_key : pystr)
    (stack : list json) : list json * list json :=
  match items with
  | [] => ([], stack)
  | (key, value) :: rest =>
      if pystr_eqb key search_key
      then let '(ys, st) := scan_items rest search_key stack in
           (value :: ys, st)
      else scan_items rest search_key (stack ++ [value])
  end.

(** The [while stack] loop; [None] when the fuel runs out. *)
Fixpoint search_loop (fuel : nat) (stack : list json) (search_key : pystr)
    : option (list json) :=
  match pop stack with
  | None => Some []
  | Some (current_item, stack') =>
      match fuel with
      | O => None
      | S n =>
          match current_item with
          | JObj items =>
              let '(ys, st) := scan_items items search_key stack' in
              option_map (app ys) (search_loop n st search_key)
          | JArr l => search_loop n (stack' ++ l) search_key
          | _ => search_loop n stack' search_key
          end
      end
  end.

(** Number of nodes of a tree: a bound on the number of pops. *)
Fixpoint weight (j : json) : nat :=
  match j with
  | JArr l => S (list_sum (map weight l))
  | JObj kv => S (list_sum (map (fun p => weight (snd p)) kv))
  | _ => 1%nat
  end.

Definition stack_weight (stack : list json) : nat :=
  list_sum (map weight stack).

(** The values the generator yields, in order. *)
Definition search_dict (partial : json) (search_key : pystr) : list json :=
  match search_loop (weight partial) [partial] search_key with
  | Some ys => ys
  | None => []
  end.

(** ** String and container operations of Python used by the downloader *)

(** [str.isspace] on one code point. *)
Definition isspace (c : N) : bool :=
  ((9 <=? c) && (c <=? 13) || (28 <=? c) && (c <=? 32) || (c =? 133)
   || (c =? 160) || (c =? 5760) || (8192 <=? c) && (c <=? 8202)
   || (c =? 8232) || (c =? 8233) || (c =? 8239) || (c =? 8287)
   || (c =? 12288))%N.

Fixpoint lstrip (s : pystr) : pystr :=
  match s with
  | [] => []
  | c :: s' => if isspace c then lstrip s' else s
  end.

Definition rstrip (s : pystr) : pystr := rev (lstrip (rev s)).

(** [s.strip()]. *)
Definition strip (s : pystr) : pystr := rstrip (lstrip s).

(** [s.startswith(p)]. *)
Fixpoint startswith (s p : pystr) : bool :=
  match p, s with
  | [], _ => true
  | x :: p', y :: s' => N.eqb x y && startswith s' p'
  | _ :: _, [] => false
  end.

(** [p in s] for two strings: [p] is a substring of [s]. *)
Fixpoint substring (p s : pystr) : bool :=
  startswith s p || match s with
                    | [] => false
                    | _ :: s' => substring p s'
                    end.

(** [s.split(sep)[0]] for a one-character separator. *)
Fixpoint split_head (sep : N) (s : pystr) : pystr :=
  match s with
  | [] => []
  | c :: s' => if N.eqb c sep then [] else c :: split_head sep s'
  end.

Definition is_str (j : json) (s : pystr) : bool :=
  match j with
  | JStr s' => pystr_eqb s' s
  | _ => false
  end.

(** [k in j] for a string [k]: a key of a [dict], an item of a [list], a
    substring of a [str]; a [TypeError] on the other values. *)
Definition contains (j : json) (k : pystr) : result bool :=
  match j with
  | JObj kv => Ok (match lookup kv k with Some _ => true | None => false end)
  | JArr l => Ok (existsb (fun x => is_str x k) l)
  | JStr s => Ok (substring k s)
  | _ => Raise TypeError
  end.

(** [for x in j]: the items of a [list], the keys of a [dict], the
    characters of a [str]. *)
Definition iterate (j : json) : result (list json) :=
  match j with
  | JArr l => Ok l
  | JObj kv => Ok (map (fun p => JStr (fst p)) kv)
  | JStr s => Ok (map (fun c => JStr [c]) s)
  | _ => Raise TypeError
  end.

(** [len(j)]. *)
Definition len (j : json) : result Z :=
  match j with
  | JArr l => Ok (Z.of_nat (length l))
  | JObj kv => Ok (Z.of_nat (length kv))
  | JStr s => Ok (Z.of_nat (length s))
  | _ => Raise TypeError
  end.

(** [j[i]] for an integer [i]: a negative index counts from the end. *)
Definition getitem_int (j : json) (i : Z) : result json :=
  match j with
  | JArr l =>
      let n := Z.of_nat (length l) in
      if (i <? - n) || (n <=? i) then Raise IndexError
      else match nth_error l (Z.to_nat (if i <? 0 then i + n else i)) with
           | Some v => Ok v
           | None => Raise IndexError
           end
  | JStr s =>
      let n := Z.of_nat (length s) in
      if (i <? - n) || (n <=? i) then Raise IndexError
      else match nth_error s (Z.to_nat (if i <? 0 then i + n else i)) with
           | Some c => Ok (JStr [c])
           | None => Raise IndexError
           end
  | JObj _ => Raise KeyError
  | _ => Raise TypeError
  end.

(** [a + b] where [a] is a string literal. *)
Definition concat_str (a : pystr) (b : json) : result pystr :=
  match b with
  | JStr s => Ok (a ++ s)
  | _ => Raise TypeError
  end.

(** *** Dictionaries built by the downloader *)

(** Keys are taken from the payloads, so they are arbitrary hashable
    values: [None], [bool], [int] and [str]. *)
Definition hashable (j : json) : bool :=
  match j with
  | JArr _ | JObj _ => false
  | _ => true
  end.

(** Equality of two hashable keys: [True == 1] and [False == 0]. *)
Definition key_eqb (a b : json) : bool :=
  match a, b with
  | JNull, JNull => true
  | JBool x, JBool y => Bool.eqb x y
  | JBool x, JNum z | JNum z, JBool x => z =? (if x then 1 else 0)
  | JNum x, JNum y => x =? y
  | JStr x, JStr y => pystr_eqb x y
  | _, _ => false
  end.

Definition pydict (V : Type) := list (json * V).

Fixpoint dict_find {V} (d : pydict V) (k : json) : option V :=
  match d with
  | [] => None
  | (k', v) :: rest => if key_eqb k' k then Some v else dict_find rest k
  end.

(** [d[k] = v]: an existing key keeps its place and takes the new value. *)
Fixpoint dict_set {V} (d : pydict V) (k : json) (v : V) : pydict V :=
  match d with
  | [] => [(k, v)]
  | (k', v') :: rest =>
      if key_eqb k' k then (k', v) :: rest else (k', v') :: dict_set rest k v
  end.

(** [d[k]]. *)
Definition dict_getitem {V} (d : pydict V) (k : json) : result V :=
  if hashable k then
    match dict_find d k with
    | Some v => Ok v
    | None => Raise KeyError
    end
  else Raise TypeError.

(** [k in d]. *)
Definition dict_contains {V} (d : pydict V) (k : json) : result bool :=
  if hashable k then
    Ok (match dict_find d k with Some _ => true | None => false end)
  else Raise TypeError.

(** [d[k] = v] with the hash of [k] taken first. *)
Definition dict_setitem {V} (d : pydict V) (k : json) (v : V)
  : result (pydict V) :=
  if hashable k then Ok (dict_set d k v) else Raise TypeError.

(** Monadic iteration: a [for] loop whose body can raise. *)
Fixpoint foldM {A B} (f : B -> A -> result B) (l : list A) (b : B)
  : result B :=
  match l with
  | [] => Ok b
  | x :: rest => b' <- f b x ;; foldM f rest b'
  end.

Fixpoint mapM {A B} (f : A -> result B) (l : list A) : result (list B) :=
  match l with
  | [] => Ok []
  | x :: rest => y <- f x ;; ys <- mapM f rest ;; Ok (y :: ys)
  end.

(** ** The network and the clock *)

(** What one [session.post] does: it returns a response with a status code
    and a body ([None] when the body is not JSON, so that [response.json()]
    raises), it times out, or it raises another exception of [requests]. *)
Inductive attempt : Type :=
| Response (status_code : Z) (body : option json)
| Timeout
| Failure.

Record request : Type := mkRequest {
  req_url : pystr;
  req_key : json;
  req_context : json;
  req_continuation : json;
  req_timeout : Q
}.

(** The effects performed so far, oldest first. *)
Record world : Type := mkWorld {
  posts : list request;
  sleeps : list Q
}.

Definition world0 : world := mkWorld [] [].

Definition do_post (w : world) (r : request) : world :=
  mkWorld (posts w ++ [r]) (sleeps w).

Definition do_sleep (w : world) (d : Q) : world :=
  mkWorld (posts w) (sleeps w ++ [d]).

(** The platform: its answer to the n-th POST of the run.  The program is
    deterministic, so an answer that depends on the request is an answer
    that depends on its number. *)
Definition server := nat -> attempt.

(** ** ajax_request *)

(** The [for _ in range(retries)] loop with its [try]. *)
Fixpoint ajax_attempts (srv : server) (n : nat) (ytcfg : json) (url : pystr)
    (context continuation : json) (sleep timeout : Q) (w : world)
  : result json * world :=
  match n with
  | O => (Ok JNull, w)
  | S n' =>
      match getitem ytcfg (lit "INNERTUBE_API_KEY") with
      | Raise e => (Raise e, w)
      | Ok key =>
          let w1 := do_post w (mkRequest url key context continuation timeout) in
          match srv (length (posts w)) with
          | Response status_code body =>
              if status_code =? 200 then
                (match body with
                 | Some j => Ok j
                 | None => Raise ValueError
                 end, w1)
              else if (status_code =? 403) || (status_code =? 413) then
                (Ok (JObj []), w1)
              else
                ajax_attempts srv n' ytcfg url context continuation sleep
                  timeout (do_sleep w1 sleep)
          | Timeout =>
              ajax_attempts srv n' ytcfg url context continuation sleep
                timeout (do_sleep w1 sleep)
          | Failure => (Raise RequestException, w1)
          end
      end
  end.

(** Lines 61-64: the URL and the two fields of the body. *)
Definition ajax_prepare (endpoint ytcfg : json)
  : result (pystr * json * json) :=
  m <- getitem endpoint (lit "commandMetadata") ;;
  wm <- getitem m (lit "webCommandMetadata") ;;
  api <- getitem wm (lit "apiUrl") ;;
  url <- concat_str (lit "https://www.youtube.com") api ;;
  context <- getitem ytcfg (lit "INNERTUBE_CONTEXT") ;;
  cc <- getitem endpoint (lit "continuationCommand") ;;
  token <- getitem cc (lit "token") ;;
  Ok (url, context, token).

Definition ajax_request (srv : server) (endpoint ytcfg : json)
    (retries : Z) (sleep timeout : Q) (w : world) : result json * world :=
  match ajax_prepare endpoint ytcfg with
  | Raise e => (Raise e, w)
  | Ok (url, context, token) =>
      ajax_attempts srv (Z.to_nat retries) ytcfg url context token sleep
        timeout w
  end.

(** The defaults of [ajax_request]: [retries=5, sleep=20, timeout=60]. *)
Definition ajax (srv : server) (endpoint ytcfg : json) (w : world)
  : result json * world :=
  ajax_request srv endpoint ytcfg 5 20 60 w.

(** ** get_comments_from_url: the body of one pass of the pagination loop *)

(** The record the generator yields.  [time_parsed] and [paid] are the two
    optional keys.  The timestamp is what the date parser computes; it is
    only stored. *)
Record CommentRecord : Type := mkComment {
  cid : json;
  text : json;
  time : json;
  author : json;
  channel : json;
  votes : pystr;
  replies : json;
  photo : json;
  heart : bool;
  reply : bool;
  time_parsed : option Q;
  paid : option json
}.

(** [dateparser.parse(s).timestamp()], [None] when the parser gives up and
    the [AttributeError] is swallowed. *)
Definition dateparser := pystr -> option Q.

Definition comment_sections : list pystr :=
  [lit "comments-section";
   lit "engagement-panel-comments-section";
   lit "shorts-engagement-panel-comments-section"].

(** The body of [for item in ...] on the continuation list. *)
Definition scan_item (action : json) (continuations : list json)
    (item : json) : result (list json) :=
  target <- getitem action (lit "targetId") ;;
  let continuations1 :=
    if existsb (is_str target) comment_sections
    then search_dict item (lit "continuationEndpoint") ++ continuations
    else continuations in
  replies_target <-
    match target with
    | JStr s => Ok (startswith s (lit "comment-replies-item"))
    | _ => Raise AttributeError
    end ;;
  if replies_target then
    more <- contains item (lit "continuationItemRenderer") ;;
    if more then
      match search_dict item (lit "buttonRenderer") with
      | [] => Raise (RuntimeError (lit "generator raised StopIteration"))
      | button :: _ =>
          command <- getitem button (lit "command") ;;
          Ok (continuations1 ++ [command])
      end
    else Ok continuations1
  else Ok continuations1.

(** The body of [for action in actions]. *)
Definition scan_action (continuations : list json) (action : json)
  : result (list json) :=
  items <- get action (lit "continuationItems") (JArr []) ;;
  items <- iterate items ;;
  foldM (scan_item action) items continuations.

Definition actions_of (response : json) : list json :=
  search_dict response (lit "reloadContinuationItemsCommand")
  ++ search_dict response (lit "appendContinuationItemsAction").

(** Lines 129-140: the continuation list after the actions of a response. *)
Definition collect_continuations (response : json) (continuations : list json)
  : result (list json) :=
  foldM scan_action (actions_of response) continuations.

(** The first [payments] comprehension. *)
Definition add_payment (acc : pydict json) (payload : json)
  : result (pydict json) :=
  chip <- contains payload (lit "pdgCommentChip") ;;
  if chip then
    key <- getitem payload (lit "key") ;;
    dict_setitem acc key
      (next_or (search_dict payload (lit "simpleText")) (JStr []))
  else Ok acc.

Definition add_surface_key (acc : pydict json) (vm : json)
  : result (pydict json) :=
  has <- contains vm (lit "commentSurfaceKey") ;;
  if has then
    key <- getitem vm (lit "commentSurfaceKey") ;;
    id <- getitem vm (lit "commentId") ;;
    dict_setitem acc key id
  else Ok acc.

(** The second [payments] comprehension: surface keys become comment ids. *)
Definition resolve_payment (surface_keys : pydict json) (acc : pydict json)
    (item : json * json) : result (pydict json) :=
  let '(key, payment) := item in
  known <- dict_contains surface_keys key ;;
  if known then
    id <- dict_getitem surface_keys key ;;
    dict_setitem acc id payment
  else Ok acc.

Definition add_toolbar_state (acc : pydict json) (payload : json)
  : result (pydict json) :=
  key <- getitem payload (lit "key") ;;
  dict_setitem acc key payload.

(** The local variables that live across passes of the [while] loop. *)
Record locals : Type := mkLocals {
  continuations : list json;
  payments : pydict json;
  surface_keys : pydict json;
  toolbar_states : pydict json
}.

(** Lines 142-150. *)
Definition side_payments (response : json) (st : locals) : result locals :=
  payments1 <-
    foldM add_payment
      (search_dict response (lit "commentSurfaceEntityPayload")) [] ;;
  match payments1 with
  | [] => Ok (mkLocals (continuations st) payments1 (surface_keys st)
                (toolbar_states st))
  | _ :: _ =>
      view_models <-
        mapM (fun vm => getitem vm (lit "commentViewModel"))
          (search_dict response (lit "commentViewModel")) ;;
      surface_keys1 <- foldM add_surface_key view_models [] ;;
      payments2 <- foldM (resolve_payment surface_keys1) payments1 [] ;;
      Ok (mkLocals (continuations st) payments2 surface_keys1
            (toolbar_states st))
  end.

(** Lines 152-153. *)
Definition side_toolbars (response : json) (st : locals) : result locals :=
  toolbar_states1 <-
    foldM add_toolbar_state
      (search_dict response (lit "engagementToolbarStateEntityPayload")) [] ;;
  Ok (mkLocals (continuations st) (payments st) (surface_keys st)
        toolbar_states1).

(** [toolbar['likeCountNotliked'].strip() or "0"]. *)
Definition normalize_votes (likes : json) : result pystr :=
  match likes with
  | JStr s => Ok (match strip s with
                  | [] => lit "0"
                  | c :: t => c :: t
                  end)
  | _ => Raise AttributeError
  end.

(** [toolbar_state.get('heartState', '') == 'TOOLBAR_HEART_STATE_HEARTED']. *)
Definition heart_of (toolbar_state : json) : result bool :=
  state <- get toolbar_state (lit "heartState") (JStr []) ;;
  Ok (is_str state (lit "TOOLBAR_HEART_STATE_HEARTED")).

(** The [try] around the date parser: a [time] without [split] raises the
    [AttributeError] that is swallowed. *)
Definition parse_time (parse : dateparser) (time : json) : option Q :=
  match time with
  | JStr s => parse (strip (split_head 40%N s))
  | _ => None
  end.

(** Lines 155-177: the record of one comment entity. *)
Definition build_record (parse : dateparser) (st : locals) (comment : json)
  : result CommentRecord :=
  properties <- getitem comment (lit "properties") ;;
  cid <- getitem properties (lit "commentId") ;;
  author <- getitem comment (lit "author") ;;
  toolbar <- getitem comment (lit "toolbar") ;;
  state_key <- getitem properties (lit "toolbarStateKey") ;;
  toolbar_state <- dict_getitem (toolbar_states st) state_key ;;
  content <- getitem properties (lit "content") ;;
  text <- getitem content (lit "content") ;;
  time <- getitem properties (lit "publishedTime") ;;
  name <- getitem author (lit "displayName") ;;
  channel <- getitem author (lit "channelId") ;;
  likes <- getitem toolbar (lit "likeCountNotliked") ;;
  votes <- normalize_votes likes ;;
  replies <- getitem toolbar (lit "replyCount") ;;
  photo <- getitem author (lit "avatarThumbnailUrl") ;;
  heart <- heart_of toolbar_state ;;
  reply <- contains cid (lit ".") ;;
  is_paid <- dict_contains (payments st) cid ;;
  Ok (mkComment cid text time name channel votes replies photo heart reply
        (parse_time parse time)
        (if is_paid then dict_find (payments st) cid else None)).

(** The [for comment in reversed(...)] loop: the records yielded, and the
    exception that ended it, if any. *)
Fixpoint emit (parse : dateparser) (st : locals) (comments : list json)
  : list CommentRecord * option exn :=
  match comments with
  | [] => ([], None)
  | comment :: rest =>
      match build_record parse st comment with
      | Ok r => let '(rs, e) := emit parse st rest in (r :: rs, e)
      | Raise e => ([], Some e)
      end
  end.

Definition entities_of (response : json) : list json :=
  rev (search_dict response (lit "commentEntityPayload")).

(** ** The pagination loop *)

(** How the generator ends: it returns, it raises, or the model's fuel ran
    out while continuations were still queued. *)
Inductive ending : Type :=
| Finished
| Raised (e : exn)
| Pending.

Inductive outcome : Type :=
| Continue (st : locals)
| Stop (e : ending).

(** ['服务器返回错误: '] and ['无法设置排序']. *)
Definition server_error_prefix : pystr :=
  [26381; 21153; 22120; 36820; 22238; 38169; 35823; 58; 32]%N.

Definition cannot_sort : pystr :=
  [26080; 27861; 35774; 32622; 25490; 24207]%N.

(** [raise RuntimeError('服务器返回错误: ' + error)]. *)
Definition server_error (error : json) : exn :=
  match concat_str server_error_prefix error with
  | Ok msg => RuntimeError msg
  | Raise e => e
  end.

(** Lines 129-153 of one pass: the queue and the side tables after the
    response. *)
Definition reconcile (response : json) (rest : list json) (st : locals)
  : result locals :=
  queue <- collect_continuations response rest ;;
  st1 <- side_payments response
           (mkLocals queue (payments st) (surface_keys st)
              (toolbar_states st)) ;;
  side_toolbars response st1.

(** One pass of [while continuations], lines 118-180: the records yielded
    during the pass and how it ends. *)
Definition pass (srv : server) (parse : dateparser) (ytcfg : json) (sleep : Q)
    (st : locals) (w : world) : list CommentRecord * outcome * world :=
  match pop (continuations st) with
  | None => ([], Stop Finished, w)
  | Some (continuation, rest) =>
      match ajax srv continuation ytcfg w with
      | (Raise e, w1) => ([], Stop (Raised e), w1)
      | (Ok response, w1) =>
          if negb (truthy response) then ([], Stop Finished, w1)
          else
            let error :=
              next_or (search_dict response (lit "externalErrorMessage"))
                JNull in
            if truthy error then ([], Stop (Raised (server_error error)), w1)
            else
              match reconcile response rest st with
              | Raise e => ([], Stop (Raised e), w1)
              | Ok st1 =>
                  match emit parse st1 (entities_of response) with
                  | (rs, Some e) => (rs, Stop (Raised e), w1)
                  | (rs, None) => (rs, Continue st1, do_sleep w1 sleep)
                  end
              end
      end
  end.

Fixpoint paginate (fuel : nat) (srv : server) (parse : dateparser)
    (ytcfg : json) (sleep : Q) (st : locals) (w : world)
  : list CommentRecord * ending * world :=
  match fuel with
  | O => ([], Pending, w)
  | S n =>
      match pass srv parse ytcfg sleep st w with
      | (rs, Stop e, w1) => (rs, e, w1)
      | (rs, Continue st1, w1) =>
          let '(rs', e, w2) := paginate n srv parse ytcfg sleep st1 w1 in
          (rs ++ rs', e, w2)
      end
  end.

(** ** Sort resolution *)

(** [next(search_dict(data, 'sortFilterSubMenuRenderer'), {})
      .get('subMenuItems', [])]. *)
Definition sort_menu_of (data : json) : result json :=
  get (next_or (search_dict data (lit "sortFilterSubMenuRenderer")) (JObj []))
    (lit "subMenuItems") (JArr []).

(** Lines 106-113: the sort menu of the page or, when the page has none, of
    the response to the first continuation of its section list. *)
Definition find_sort_menu (srv : server) (data ytcfg : json) (w : world)
  : result json * world :=
  match sort_menu_of data with
  | Raise e => (Raise e, w)
  | Ok sort_menu =>
      if truthy sort_menu then (Ok sort_menu, w)
      else
        let section_list :=
          next_or (search_dict data (lit "sectionListRenderer")) (JObj []) in
        match search_dict section_list (lit "continuationEndpoint") with
        | [] => (sort_menu_of (JObj []), w)
        | endpoint :: _ =>
            match ajax srv endpoint ytcfg w with
            | (Raise e, w1) => (Raise e, w1)
            | (Ok data1, w1) => (sort_menu_of data1, w1)
            end
        end
  end.

(** Lines 114-116: the check and the first queue. *)
Definition seed_queue (sort_menu : json) (sort_by : Z) : result (list json) :=
  if negb (truthy sort_menu) then Raise (RuntimeError cannot_sort)
  else
    n <- len sort_menu ;;
    if n <=? sort_by then Raise (RuntimeError cannot_sort)
    else
      entry <- getitem_int sort_menu sort_by ;;
      endpoint <- getitem entry (lit "serviceEndpoint") ;;
      Ok [endpoint].

Definition resolve_sort (srv : server) (data ytcfg : json) (sort_by : Z)
    (w : world) : result (list json) * world :=
  match find_sort_menu srv data ytcfg w with
  | (Raise e, w1) => (Raise e, w1)
  | (Ok sort_menu, w1) => (seed_queue sort_menu sort_by, w1)
  end.

(** [get_comments_from_url] from line 93 on: [ytcfg] and [data] are the two
    JSON blobs extracted from the page, the language already set.  The
    result is the list of the records yielded, how the generator ends and
    the effects performed. *)
Definition get_comments_from_url (fuel : nat) (srv : server)
    (parse : dateparser) (ytcfg data : json) (sort_by : Z) (sleep : Q)
    (w : world) : list CommentRecord * ending * world :=
  if negb (truthy ytcfg) then ([], Finished, w)
  else
    let item_section :=
      next_or (search_dict data (lit "itemSectionRenderer")) JNull in
    let renderer :=
      if truthy item_section
      then next_or (search_dict item_section (lit "continuationItemRenderer"))
             JNull
      else JNull in
    if negb (truthy renderer) then ([], Finished, w)
    else
      match resolve_sort srv data ytcfg sort_by w with
      | (Raise e, w1) => ([], Raised e, w1)
      | (Ok queue, w1) =>
          paginate fuel srv parse ytcfg sleep (mkLocals queue [] [] []) w1
      end.

(** ** to_json and download_comments *)

Definition INDENT : Z := 4.

(** [json.dumps(comment, ensure_ascii=False, indent=indent)]. *)
Definition serializer := CommentRecord -> option Z -> pystr.

(** [' ' * n]. *)
Definition spaces (n : Z) : pystr := repeat 32%N (Z.to_nat n).

(** The line boundaries of [str.splitlines]. *)
Definition is_linebreak (c : N) : bool :=
  ((10 <=? c) && (c <=? 13) || (28 <=? c) && (c <=? 30) || (c =? 133)
   || (c =? 8232) || (c =? 8233))%N.

(** [s.splitlines(True)]: the lines with their ends; [cur] is the line
    being read. *)
Fixpoint splitlines (cur s : pystr) : list pystr :=
  match s with
  | [] => match cur with [] => [] | _ :: _ => [cur] end
  | c :: s' =>
      if (c =? 13)%N then
        match s' with
        | d :: s'' =>
            if (d =? 10)%N then (cur ++ [c; d]) :: splitlines [] s''
            else (cur ++ [c]) :: splitlines [] s'
        | [] => (cur ++ [c]) :: splitlines [] s'
        end
      else if is_linebreak c then (cur ++ [c]) :: splitlines [] s'
      else splitlines (cur ++ [c]) s'
  end.

Definition to_json (dumps : serializer) (comment : CommentRecord)
    (indent : option Z) : pystr :=
  let comment_str := dumps comment indent in
  match indent with
  | None => comment_str
  | Some i =>
      let padding := if i =? 0 then [] else spaces (2 * i) in
      concat (map (app padding) (splitlines [] comment_str))
  end.

(** What one [next(generator, None)] does. *)
Inductive pull : Type :=
| Yield (r : CommentRecord)
| StopIteration
| Throw (e : exn).

(** A generator, seen from its consumer: the outcome of its n-th [next],
    counted from 0. *)
Definition generator := nat -> pull.

(** The output file as the sequence of the [fp.write] arguments, the
    records whose text was written, and the number of [next] calls. *)
Record download : Type := mkDownload {
  fp : list pystr;
  written : list CommentRecord;
  pulls : nat
}.

Definition nl : pystr := [10%N].
Definition quote : pystr := [34%N].

(** The two header lines and the three footer lines. *)
Definition header (pretty : bool) : list pystr :=
  [lit "{" ++ nl;
   if pretty
   then spaces INDENT ++ quote ++ lit "comments" ++ quote ++ lit ": [" ++ nl
   else quote ++ lit "comments" ++ quote ++ lit ":[" ++ nl].

Definition footer (pretty : bool) : list pystr :=
  [nl; if pretty then spaces INDENT ++ lit "]" ++ nl else lit "]" ++ nl;
   lit "}"].

(** [limit and count >= limit]. *)
Definition limit_reached (limit : option Z) (count : Z) : bool :=
  match limit with
  | None => false
  | Some l => negb (l =? 0) && (l <=? count)
  end.

Definition render (dumps : serializer) (pretty : bool)
    (comment : CommentRecord) : pystr :=
  if pretty
  then spaces (2 * INDENT) ++ to_json dumps comment (Some INDENT)
  else to_json dumps comment None.

(** The [while comment] loop, entered with a record in [comment].  A
    record is a dict with at least ten keys, so the test fails only on the
    [None] that ends the feed.  The loop ends with the final [count], or
    with the exception the generator raised.  The progress line printed on
    the standard output is left out. *)
Fixpoint write_loop (fuel : nat) (dumps : serializer) (gen : generator)
    (limit : option Z) (pretty : bool) (comment : CommentRecord)
    (first_comment : bool) (count : Z) (d : download)
  : option (download * result Z) :=
  match fuel with
  | O => None
  | S n =>
      let fp1 := if first_comment then fp d else fp d ++ [lit "," ++ nl] in
      let fp2 := fp1 ++ [render dumps pretty comment] in
      let written2 := written d ++ [comment] in
      if limit_reached limit count
      then Some (mkDownload fp2 written2 (pulls d), Ok (count + 1))
      else
        let d2 := mkDownload fp2 written2 (S (pulls d)) in
        match gen (pulls d) with
        | Yield next_comment =>
            write_loop n dumps gen limit pretty next_comment false
              (count + 1) d2
        | StopIteration => Some (d2, Ok (count + 1))
        | Throw e => Some (d2, Raise e)
        end
  end.

(** [download_comments] from line 236 on, the generator being created.
    [None] when the fuel runs out; otherwise the file, and the value
    returned or the exception raised. *)
Definition download_comments (fuel : nat) (dumps : serializer)
    (gen : generator) (limit : option Z) (pretty : bool)
  : option (download * result Z) :=
  let d0 := mkDownload (header pretty) [] 1 in
  match gen O with
  | Throw e => Some (d0, Raise e)
  | StopIteration =>
      Some (mkDownload (fp d0 ++ footer pretty) [] 1, Ok (1 - 1))
  | Yield comment =>
      match write_loop fuel dumps gen limit pretty comment true 1 d0 with
      | None => None
      | Some (d, Raise e) => Some (d, Raise e)
      | Some (d, Ok count) =>
          Some (mkDownload (fp d ++ footer pretty) (written d) (pulls d),
                Ok (count - 1))
      end
  end.

(** * Specification vocabulary *)

(** [occurs k v t]: [v] is the value of a key [k], anywhere in [t]. *)
Inductive occurs (k : pystr) (v : json) : json -> Prop :=
| occurs_here kv : In (k, v) kv -> occurs k v (JObj kv)
| occurs_obj kv k' j : In (k', j) kv -> occurs k v j -> occurs k v (JObj kv)
| occurs_arr l j : In j l -> occurs k v j -> occurs k v (JArr l).

(** [reaches k v t]: [v] is the value of a key [k] in [t], and no value of
    a key [k] encloses it. *)
Inductive reaches (k : pystr) (v : json) : json -> Prop :=
| reaches_here kv : In (k, v) kv -> reaches k v (JObj kv)
| reaches_obj kv k' j :
    In (k', j) kv -> k' <> k -> reaches k v j -> reaches k v (JObj kv)
| reaches_arr l j : In j l -> reaches k v j -> reaches k v (JArr l).

Definition matching (k : pystr) (p : pystr * json) : bool :=
  pystr_eqb (fst p) k.

(** [votes_of raw] is the stripped string, or ["0"] when nothing is left. *)
Definition votes_of (raw : pystr) : pystr :=
  if forallb isspace raw then lit "0" else strip raw.

(** A string that is not empty and neither starts nor ends with
    whitespace. *)
Definition trimmed (s : pystr) : bool :=
  match s with
  | [] => false
  | c :: _ => negb (isspace c) && negb (isspace (last s c))
  end.

(** [emitted_from parse response comment st r]: the record [r] is built
    from the entity [comment] of [response] with the side tables [st] that
    the pass computed for [response]. *)
Definition emitted_from (parse : dateparser) (response comment : json)
    (st : locals) (r : CommentRecord) : Prop :=
  (exists rest st0, reconcile response rest st0 = Ok st)
  /\ In comment (entities_of response)
  /\ build_record parse st comment = Ok r.

(** [complete_entity st comment entries]: the entity [comment] has every
    field that lines 155-169 read, the comment id and the like count being
    strings, and the toolbar map has the dict [entries] under the
    toolbar-state key of the entity.  Nothing is asked of [entries]. *)
Definition complete_entity (st : locals) (comment : json)
    (entries : list (pystr * json)) : Prop :=
  exists properties id author toolbar state_key content text time name
         channel likes replies photo,
    getitem comment (lit "properties") = Ok properties
    /\ getitem properties (lit "commentId") = Ok (JStr id)
    /\ getitem comment (lit "author") = Ok author
    /\ getitem comment (lit "toolbar") = Ok toolbar
    /\ getitem properties (lit "toolbarStateKey") = Ok state_key
    /\ dict_getitem (toolbar_states st) state_key = Ok (JObj entries)
    /\ getitem properties (lit "content") = Ok content
    /\ getitem content (lit "content") = Ok text
    /\ getitem properties (lit "publishedTime") = Ok time
    /\ getitem author (lit "displayName") = Ok name
    /\ getitem author (lit "channelId") = Ok channel
    /\ getitem toolbar (lit "likeCountNotliked") = Ok (JStr likes)
    /\ getitem toolbar (lit "replyCount") = Ok replies
    /\ getitem author (lit "avatarThumbnailUrl") = Ok photo.

(** The entity has a toolbar-state key and the toolbar map has no entry
    for it. *)
Definition toolbar_state_missing (st : locals) (comment : json) : bool :=
  match
    (properties <- getitem comment (lit "properties") ;;
     getitem properties (lit "toolbarStateKey"))
  with
  | Ok state_key =>
      match dict_find (toolbar_states st) state_key with
      | None => true
      | Some _ => false
      end
  | Raise _ => false
  end.

(** The badge text the first [payments] comprehension stores for a
    surface payload. *)
Definition badge_of (payload : json) : json :=
  next_or (search_dict payload (lit "simpleText")) (JStr []).

(** [scoped parse r]: the side payloads joined onto the record [r] come
    from the response whose entity [r] is built from: its toolbar state is
    a toolbar payload of that response, and its paid badge, if any, is the
    text of a surface payload of that response. *)
Definition scoped (parse : dateparser) (r : CommentRecord) : Prop :=
  exists response comment st properties state_key toolbar_state,
    emitted_from parse response comment st r
    /\ getitem comment (lit "properties") = Ok properties
    /\ getitem properties (lit "toolbarStateKey") = Ok state_key
    /\ dict_getitem (toolbar_states st) state_key = Ok toolbar_state
    /\ In toolbar_state
         (search_dict response (lit "engagementToolbarStateEntityPayload"))
    /\ heart_of toolbar_state = Ok (heart r)
    /\ forall badge, paid r = Some badge ->
         exists payload,
           In payload
             (search_dict response (lit "commentSurfaceEntityPayload"))
           /\ badge = badge_of payload.

(** The items of an action: [action.get('continuationItems', [])], as the
    [for] loop sees them. *)
Definition items_of (action : json) : result (list json) :=
  items <- get action (lit "continuationItems") (JArr []) ;;
  iterate items.

(** [ep] is a same-feed continuation of [response]: a continuation
    endpoint of an item of an action that targets a comment section. *)
Definition same_feed_continuation (response ep : json) : Prop :=
  exists action target items item,
    In action (actions_of response)
    /\ getitem action (lit "targetId") = Ok target
    /\ existsb (is_str target) comment_sections = true
    /\ items_of action = Ok items
    /\ In item items
    /\ In ep (search_dict item (lit "continuationEndpoint")).

(** [ep] is a reply-expansion continuation of [response]: the command of
    the button of an unexpanded item of an action that targets a reply
    thread. *)
Definition reply_continuation (response ep : json) : Prop :=
  exists action target items item button,
    In action (actions_of response)
    /\ getitem action (lit "targetId") = Ok (JStr target)
    /\ startswith target (lit "comment-replies-item") = true
    /\ items_of action = Ok items
    /\ In item items
    /\ contains item (lit "continuationItemRenderer") = Ok true
    /\ hd_error (search_dict item (lit "buttonRenderer")) = Some button
    /\ getitem button (lit "command") = Ok ep.

(** The items of an action as a list, empty when they cannot be read. *)
Definition items_list (action : json) : list json :=
  match items_of action with
  | Ok items => items
  | Raise _ => []
  end.

(** The same-feed continuations that one item of an action brings: its
    continuation endpoints, in the order of the search, when the action
    targets a comment section. *)
Definition same_feed_of (action item : json) : list json :=
  match getitem action (lit "targetId") with
  | Ok target =>
      if existsb (is_str target) comment_sections
      then search_dict item (lit "continuationEndpoint")
      else []
  | Raise _ => []
  end.

(** The reply-expansion continuation that one item of an action brings,
    if any: the command of its first button, when the action targets a
    reply thread and the item is a continuation item. *)
Definition reply_of (action item : json) : list json :=
  match getitem action (lit "targetId") with
  | Ok (JStr target) =>
      if startswith target (lit "comment-replies-item") then
        match contains item (lit "continuationItemRenderer") with
        | Ok true =>
            match search_dict item (lit "buttonRenderer") with
            | button :: _ =>
                match getitem button (lit "command") with
                | Ok command => [command]
                | Raise _ => []
                end
            | [] => []
            end
        | _ => []
        end
      else []
  | _ => []
  end.

(** The same-feed continuations of a response as they stand at the front
    of the queue: the items are taken from the last one of the last action
    to the first one of the first action, since each item's endpoints are
    put before what is queued. *)
Definition inserted_front (response : json) : list json :=
  flat_map
    (fun action => flat_map (same_feed_of action) (rev (items_list action)))
    (rev (actions_of response)).

(** The reply-expansion continuations of a response as they stand at the
    back of the queue: in the order the items are met. *)
Definition appended_back (response : json) : list json :=
  flat_map
    (fun action => flat_map (reply_of action) (items_list action))
    (actions_of response).

(** The continuation tokens of the POSTs of a run, oldest first. *)
Definition tokens (w : world) : list json := map req_continuation (posts w).

(** The side tables of a response, computed from empty locals. *)
Definition tables_of (response : json) : locals :=
  match reconcile response [] (mkLocals [] [] [] []) with
  | Ok st => st
  | Raise _ => mkLocals [] [] [] []
  end.

(** An attempt after which [ajax_request] sleeps and goes round the loop
    again: a timeout, or a status other than 200, 403 and 413. *)
Definition retried (a : attempt) : bool :=
  match a with
  | Timeout => true
  | Response status_code _ =>
      negb (status_code =? 200) && negb (status_code =? 403)
      && negb (status_code =? 413)
  | Failure => false
  end.

(** The world after [p] more POSTs of the request [req] and [s] more
    sleeps of [sleep] seconds. *)
Definition after_attempts (w : world) (req : request) (sleep : Q)
    (p s : nat) : world :=
  mkWorld (posts w ++ repeat req p) (sleeps w ++ repeat sleep s).


(** The writes between the header and the footer for the records [rs]: the
    text of each record, with [",\n"] before all but the first. *)
Definition body (dumps : serializer) (pretty : bool)
    (rs : list CommentRecord) : list pystr :=
  match rs with
  | [] => []
  | r :: rest =>
      render dumps pretty r
      :: flat_map (fun r' => [lit "," ++ nl; render dumps pretty r']) rest
  end.



(** * Test data *)

(** A view model as the platform nests it: the key [commentViewModel]
    holds an object that again has a key [commentViewModel]. *)
Definition inner_view_model : json :=
  JObj [(lit "commentId", JStr (lit "c1"))].

Definition nested_view_model : json :=
  JObj [(lit "commentViewModel",
         JObj [(lit "commentViewModel", inner_view_model)])].

(** A page and its AJAX responses, in the shape the downloader searches:
    a two-entry sort menu, a response with two comment entities, their
    toolbar states, one same-feed continuation and one reply-thread
    continuation. *)
Definition jstr (s : string) : json := JStr (lit s).

Definition example_ytcfg : json :=
  JObj [(lit "INNERTUBE_CONTEXT",
         JObj [(lit "client", JObj [(lit "hl", jstr "en")])]);
        (lit "INNERTUBE_API_KEY", jstr "key0")].

Definition example_endpoint (token : string) : json :=
  JObj [(lit "commandMetadata",
         JObj [(lit "webCommandMetadata",
                JObj [(lit "apiUrl", jstr "/youtubei/v1/next")])]);
        (lit "continuationCommand", JObj [(lit "token", jstr token)])].

Definition example_data : json :=
  JObj [(lit "contents",
         JObj [(lit "itemSectionRenderer",
                JObj [(lit "continuationItemRenderer",
                       JObj [(lit "trigger", jstr "scroll")])])]);
        (lit "header",
         JObj [(lit "sortFilterSubMenuRenderer",
                JObj [(lit "subMenuItems",
                       JArr [JObj [(lit "serviceEndpoint",
                                    example_endpoint "popular")];
                             JObj [(lit "serviceEndpoint",
                                    example_endpoint "recent")]])])])].

Definition example_entity (id state_key likes : string) : json :=
  JObj [(lit "properties",
         JObj [(lit "commentId", jstr id);
               (lit "toolbarStateKey", jstr state_key);
               (lit "content", JObj [(lit "content", jstr "hello")]);
               (lit "publishedTime", jstr "1 day ago")]);
        (lit "author",
         JObj [(lit "displayName", jstr "@ann");
               (lit "channelId", jstr "UC1");
               (lit "avatarThumbnailUrl", jstr "https://img/1")]);
        (lit "toolbar",
         JObj [(lit "likeCountNotliked", jstr likes);
               (lit "replyCount", jstr "0")])].

Definition mutation (kind : string) (payload : json) : json :=
  JObj [(lit "payload", JObj [(lit kind, payload)])].

Definition hearted_state : json :=
  JObj [(lit "key", jstr "state1");
        (lit "heartState", jstr "TOOLBAR_HEART_STATE_HEARTED")].

Definition plain_state : json := JObj [(lit "key", jstr "state2")].

(** A paid badge, keyed by a surface key, and the view model that maps the
    surface key to comment [c1]. *)
Definition paid_chip : json :=
  JObj [(lit "key", jstr "surface1");
        (lit "pdgCommentChip",
         JObj [(lit "chipText", JObj [(lit "simpleText", jstr "$5.00")])])].

Definition example_view_model : json :=
  JObj [(lit "commentViewModel",
         JObj [(lit "commentViewModel",
                JObj [(lit "commentSurfaceKey", jstr "surface1");
                      (lit "commentId", jstr "c1")])])].

Definition example_mutations : json :=
  JArr [mutation "commentEntityPayload" (example_entity "c1" "state1" " 5");
        mutation "commentEntityPayload" (example_entity "c1.r1" "state2" " ");
        mutation "engagementToolbarStateEntityPayload" hearted_state;
        mutation "engagementToolbarStateEntityPayload" plain_state;
        mutation "commentSurfaceEntityPayload" paid_chip].

Definition next_page_item : json :=
  JObj [(lit "continuationItemRenderer",
         JObj [(lit "continuationEndpoint", example_endpoint "next-page")])].

Definition same_feed_body : json :=
  JObj [(lit "targetId", jstr "comments-section");
        (lit "continuationItems", JArr [next_page_item])].

Definition same_feed_action : json :=
  JObj [(lit "appendContinuationItemsAction", same_feed_body)].

Definition more_replies_button : json :=
  JObj [(lit "command", example_endpoint "more-replies")].

Definition more_replies_item : json :=
  JObj [(lit "continuationItemRenderer",
         JObj [(lit "buttonRenderer", more_replies_button)])].

Definition reply_body : json :=
  JObj [(lit "targetId", jstr "comment-replies-item-c1");
        (lit "continuationItems", JArr [more_replies_item])].

Definition reply_action : json :=
  JObj [(lit "appendContinuationItemsAction", reply_body)].

Definition example_page : json :=
  JObj [(lit "frameworkUpdates",
         JObj [(lit "mutations", example_mutations)]);
        (lit "onResponseReceivedEndpoints",
         JArr [same_feed_action; reply_action]);
        (lit "viewModels", JArr [example_view_model])].

(** A response without comments and without continuations. *)
Definition empty_page : json := JObj [(lit "responseContext", JObj [])].

Definition example_server : server :=
  fun n => match n with
           | O => Response 200 (Some example_page)
           | _ => Response 200 (Some empty_page)
           end.

Definition no_dates : dateparser := fun _ => None.

(** The run of the generator on the example page, sorted by recency. *)
Definition example_run : list CommentRecord * ending * world :=
  get_comments_from_url 10 example_server no_dates example_ytcfg
    example_data 1 (1 # 10) world0.

Definition example_records : list CommentRecord := fst (fst example_run).

(** A response in which the second of three entities names a toolbar
    state that the response does not carry. *)
Definition broken_page : json :=
  JObj [(lit "frameworkUpdates",
         JObj [(lit "mutations",
                JArr [mutation "commentEntityPayload"
                        (example_entity "c1" "state1" "7");
                      mutation "commentEntityPayload"
                        (example_entity "c2" "state9" "1");
                      mutation "commentEntityPayload"
                        (example_entity "c3" "state2" "2");
                      mutation "engagementToolbarStateEntityPayload"
                        hearted_state;
                      mutation "engagementToolbarStateEntityPayload"
                        plain_state])])].

Definition broken_server : server :=
  fun _ => Response 200 (Some broken_page).

(** The locals when the loop is entered with one continuation. *)
Definition first_locals (token : string) : locals :=
  mkLocals [example_endpoint token] [] [] [].

(** A second response whose only entity names the toolbar state and the
    comment id of the first response, and carries no side payload. *)
Definition stale_page : json :=
  JObj [(lit "frameworkUpdates",
         JObj [(lit "mutations",
                JArr [mutation "commentEntityPayload"
                        (example_entity "c1" "state1" "3")])])].

Definition stale_server : server :=
  fun n => match n with
           | O => Response 200 (Some example_page)
           | _ => Response 200 (Some stale_page)
           end.

(** The first pass of the example run and the locals it leaves. *)
Definition example_pass : list CommentRecord * outcome * world :=
  pass example_server no_dates example_ytcfg (1 # 10)
    (first_locals "recent") world0.

Definition example_next : locals :=
  match snd (fst example_pass) with
  | Continue st => st
  | Stop _ => first_locals "recent"
  end.

Definition timeout_server : server := fun _ => Timeout.

(** The request the example run sends for the continuation [token]. *)
Definition example_request (token : string) : request :=
  mkRequest (lit "https://www.youtube.com/youtubei/v1/next") (jstr "key0")
    (JObj [(lit "client", JObj [(lit "hl", jstr "en")])]) (jstr token) 60.

(** A platform that answers the first POST and refuses the next ones. *)
Definition forbidden_server : server :=
  fun n => match n with
           | O => Response 200 (Some example_page)
           | _ => Response 403 None
           end.

(** The entries of the sort menu of the example page. *)
Definition example_menu : json :=
  JArr [JObj [(lit "serviceEndpoint", example_endpoint "popular")];
        JObj [(lit "serviceEndpoint", example_endpoint "recent")]].

(** A feed of a hundred records, numbered from 0. *)
Definition numbered (i : nat) : CommentRecord :=
  mkComment (JNum (Z.of_nat i)) (jstr "hello") (jstr "1 day ago")
    (jstr "@ann") (jstr "UC1") (lit "0") (jstr "0") (jstr "https://img/1")
    false false None None.

Definition hundred_feed : generator :=
  fun i => if (i <? 100)%nat then Yield (numbered i) else StopIteration.


(** A serializer that prints the comment id of a numbered record. *)
Definition example_dumps : serializer :=
  fun r _ => match cid r with
             | JNum z => lit "{" ++ repeat 35%N (Z.to_nat z) ++ lit "}"
             | _ => lit "{}"
             end.

(** * Vocabulary of the further properties *)

(** The values [search_dict] yields for the trees of a stack, the top of
    the stack (its last item) first. *)
Definition search_all (stack : list json) (k : pystr) : list json :=
  flat_map (fun j => search_dict j k) (rev stack).

(** The values of the items of a dict whose key is not [k]. *)
Definition other_values (k : pystr) (kv : list (pystr * json)) : list json :=
  map snd (filter (fun p => negb (matching k p)) kv).

(** Two records that agree on every key but [time_parsed]. *)
Definition same_but_time (r r' : CommentRecord) : Prop :=
  cid r = cid r' /\ text r = text r' /\ time r = time r'
  /\ author r = author r' /\ channel r = channel r' /\ votes r = votes r'
  /\ replies r = replies r' /\ photo r = photo r' /\ heart r = heart r'
  /\ reply r = reply r' /\ paid r = paid r'.

(** A date parser that always answers. *)
Definition epoch_dates : dateparser := fun _ => Some 0%Q.

(** [r] is the request [ajax_request] builds from [endpoint] and [ytcfg]:
    the URL, the context and the token of lines 61-64, the API key and the
    timeout of line 68. *)
Definition request_of (endpoint ytcfg : json) (timeout : Q) (r : request)
  : Prop :=
  ajax_prepare endpoint ytcfg
  = Ok (req_url r, req_context r, req_continuation r)
  /\ getitem ytcfg (lit "INNERTUBE_API_KEY") = Ok (req_key r)
  /\ req_timeout r = timeout.

(** A platform that times out twice and then drops the connection. *)
Definition failing_server : server :=
  fun n => if (n <? 2)%nat then Timeout else Failure.

(** A platform that answers with a page that is not JSON. *)
Definition garbled_server : server := fun _ => Response 200 None.

(** A page with two item sections: the one [search_dict] finds first has
    no continuation item, the other one has. *)
Definition two_sections_data : json :=
  JObj [(lit "contents",
         JArr [JObj [(lit "itemSectionRenderer",
                      JObj [(lit "continuationItemRenderer",
                             JObj [(lit "trigger", jstr "scroll")])])];
               JObj [(lit "itemSectionRenderer",
                      JObj [(lit "contents", JArr [])])]]);
        (lit "header",
         JObj [(lit "sortFilterSubMenuRenderer",
                JObj [(lit "subMenuItems", example_menu)])])].

(** A page whose comments are enabled and that has no sort menu, with a
    section list that offers one continuation. *)
Definition no_menu_data : json :=
  JObj [(lit "contents",
         JObj [(lit "itemSectionRenderer",
                JObj [(lit "continuationItemRenderer",
                       JObj [(lit "trigger", jstr "scroll")])])]);
        (lit "sectionListRenderer",
         JObj [(lit "continuationEndpoint", example_endpoint "section")])].

(** The first continuation endpoint of the section list of a page. *)
Definition fallback_endpoints (data : json) : list json :=
  search_dict (next_or (search_dict data (lit "sectionListRenderer"))
                 (JObj []))
    (lit "continuationEndpoint").

(** The marker of enabled comments, as lines 100-101 compute it. *)
Definition comments_marker (data : json) : json :=
  let item_section :=
    next_or (search_dict data (lit "itemSectionRenderer")) JNull in
  if truthy item_section
  then next_or (search_dict item_section (lit "continuationItemRenderer"))
         JNull
  else JNull.

(** A platform whose responses carry no continuation. *)
Definition quiet (srv : server) : Prop :=
  forall n body, srv n = Response 200 (Some body) -> actions_of body = [].

(** A response that reports an error of the platform, and also carries a
    comment entity with its toolbar state. *)
Definition error_page : json :=
  JObj [(lit "frameworkUpdates",
         JObj [(lit "mutations",
                JArr [mutation "commentEntityPayload"
                        (example_entity "c1" "state1" "7");
                      mutation "engagementToolbarStateEntityPayload"
                        hearted_state])]);
        (lit "error",
         JObj [(lit "externalErrorMessage", jstr "Comments are off")])].

Definition error_server : server := fun _ => Response 200 (Some error_page).

Definition empty_server : server := fun _ => Response 200 (Some empty_page).

(** The padding [to_json] puts before every line: [' ' * (2 * indent)], or
    nothing when [indent] is 0. *)
Definition padding_of (indent : Z) : pystr :=
  if indent =? 0 then [] else spaces (2 * indent).

(** A piece of text without a line boundary. *)
Definition unbroken (s : pystr) : bool :=
  forallb (fun c => negb (is_linebreak c)) s.

(** [lines_of text lines]: [lines] are the lines of [text], each with its
    end: a line runs up to and including the first line boundary, which is
    one boundary character, or the pair CR LF taken as one; what follows
    the last boundary, if anything, is the last line. *)
Inductive lines_of : pystr -> list pystr -> Prop :=
| lines_none : lines_of [] []
| lines_last line :
    line <> [] -> unbroken line = true -> lines_of line [line]
| lines_ended line c rest lines :
    unbroken line = true ->
    is_linebreak c = true ->
    (c = 13%N -> hd_error rest <> Some 10%N) ->
    lines_of rest lines ->
    lines_of (line ++ c :: rest) ((line ++ [c]) :: lines)
| lines_crlf line rest lines :
    unbroken line = true ->
    lines_of rest lines ->
    lines_of (line ++ 13%N :: 10%N :: rest) ((line ++ [13%N; 10%N]) :: lines).

(** A serializer that prints two lines. *)
Definition two_line_dumps : serializer :=
  fun _ _ => lit "{" ++ nl ++ lit "}".



(** A response with two toolbar states under the same key. *)
Definition later_state : json :=
  JObj [(lit "key", jstr "state1"); (lit "heartState", jstr "NONE")].

Definition duplicate_page : json :=
  JObj [(lit "frameworkUpdates",
         JObj [(lit "mutations",
                JArr [mutation "commentEntityPayload"
                        (example_entity "c1" "state1" "7");
                      mutation "engagementToolbarStateEntityPayload"
                        later_state;
                      mutation "engagementToolbarStateEntityPayload"
                        hearted_state])])].


(** An action that targets another region of the page, and a reply item
    whose button is missing. *)
Definition other_action : json :=
  JObj [(lit "targetId", jstr "watch-next-feed");
        (lit "continuationItems", JArr [next_page_item])].

Definition buttonless_action : json :=
  JObj [(lit "targetId", jstr "comment-replies-item-c1");
        (lit "continuationItems",
         JArr [JObj [(lit "continuationItemRenderer", JObj [])]])].

(** * Properties *)

(** ** Strings, lists and the error monad *)

Lemma pystr_eqb_eq (a b : pystr) : pystr_eqb a b = true <-> a = b.
Proof.
  revert b. induction a as [|x a IH]; intros [|y b]; simpl;
    try (split; [discriminate | congruence]); try tauto.
  rewrite andb_true_iff, N.eqb_eq, IH. split.
  - intros [-> ->]. reflexivity.
  - intros H. injection H. auto.
Qed.

Lemma pystr_eqb_refl (a : pystr) : pystr_eqb a a = true.
Proof. apply pystr_eqb_eq. reflexivity. Qed.

Lemma pystr_eqb_neq (a b : pystr) : pystr_eqb a b = false <-> a <> b.
Proof.
  rewrite <- pystr_eqb_eq. destruct (pystr_eqb a b); split; congruence.
Qed.

Lemma pop_snoc {A} (l : list A) (x : A) : pop (l ++ [x]) = Some (x, l).
Proof.
  induction l as [|y l IH]; simpl.
  - reflexivity.
  - rewrite IH. reflexivity.
Qed.

Lemma pop_nil_inv {A} (l : list A) : pop l = None -> l = [].
Proof.
  destruct l as [|x r]; simpl; [reflexivity|].
  destruct (pop r) as [[y r']|]; discriminate.
Qed.

Lemma pop_some_inv {A} (l r : list A) (x : A) :
  pop l = Some (x, r) -> l = r ++ [x].
Proof.
  revert r x. induction l as [|y l IH]; simpl; intros r x H.
  - discriminate.
  - destruct (pop l) as [[z r']|] eqn:E.
    + injection H as <- <-. rewrite (IH _ _ eq_refl). reflexivity.
    + injection H as <- <-. rewrite (pop_nil_inv _ E). reflexivity.
Qed.

Lemma bind_ok {A B} (m : result A) (f : A -> result B) (b : B) :
  bind m f = Ok b -> exists a, m = Ok a /\ f a = Ok b.
Proof.
  destruct m as [a|e]; simpl; intros H; [eauto | discriminate].
Qed.

(** ** search_dict *)

Lemma reaches_occurs k v t : reaches k v t -> occurs k v t.
Proof.
  induction 1; [apply occurs_here | eapply occurs_obj | eapply occurs_arr];
    eauto.
Qed.

(** The outermost occurrence of a key is reached. *)
Lemma occurs_reaches k v t : occurs k v t -> exists v', reaches k v' t.
Proof.
  induction 1 as [kv H | kv k' j H _ [v' IH] | l j H _ [v' IH]].
  - exists v. apply reaches_here. exact H.
  - destruct (pystr_eqb k' k) eqn:E.
    + apply pystr_eqb_eq in E. subst k'. exists j. apply reaches_here.
      exact H.
    + apply pystr_eqb_neq in E. exists v'. eapply reaches_obj; eauto.
  - exists v'. eapply reaches_arr; eauto.
Qed.

Lemma scan_items_spec items k stack :
  scan_items items k stack =
  (map snd (filter (matching k) items),
   stack ++ map snd (filter (fun p => negb (matching k p)) items)).
Proof.
  revert stack. induction items as [|[key value] rest IH]; intros stack.
  - simpl. rewrite app_nil_r. reflexivity.
  - simpl. unfold matching. simpl. fold (matching k).
    destruct (pystr_eqb key k); simpl.
    + rewrite IH. reflexivity.
    + rewrite IH, <- app_assoc. reflexivity.
Qed.

Lemma weight_pos j : (1 <= weight j)%nat.
Proof. destruct j; simpl; lia. Qed.

Lemma stack_weight_app a b :
  stack_weight (a ++ b) = (stack_weight a + stack_weight b)%nat.
Proof. unfold stack_weight. rewrite map_app, list_sum_app. reflexivity. Qed.

Lemma weight_filter_le (f : pystr * json -> bool) kv :
  (stack_weight (map snd (filter f kv))
   <= list_sum (map (fun p => weight (snd p)) kv))%nat.
Proof.
  unfold stack_weight. induction kv as [|p kv IH]; simpl; [lia|].
  destruct (f p); simpl; lia.
Qed.

Lemma reaches_obj_iff k v kv :
  reaches k v (JObj kv) <->
  In v (map snd (filter (matching k) kv))
  \/ exists j, In j (map snd (filter (fun p => negb (matching k p)) kv))
               /\ reaches k v j.
Proof.
  split.
  - intros H. inversion H as [kv' Hin | kv' k' j Hin Hne Hr |]; subst.
    + left. apply in_map_iff. exists (k, v). split; [reflexivity|].
      apply filter_In. split; [exact Hin|]. apply pystr_eqb_refl.
    + right. exists j. split; [|exact Hr]. apply in_map_iff.
      exists (k', j). split; [reflexivity|]. apply filter_In.
      split; [exact Hin|]. unfold matching. simpl.
      apply pystr_eqb_neq in Hne. rewrite Hne. reflexivity.
  - intros [H | [j [H Hr]]].
    + apply in_map_iff in H. destruct H as [[k' v'] [Hv H]]. simpl in Hv.
      subst v'. apply filter_In in H. destruct H as [Hin Hm].
      apply pystr_eqb_eq in Hm. simpl in Hm. subst k'.
      apply reaches_here. exact Hin.
    + apply in_map_iff in H. destruct H as [[k' j'] [Hj H]]. simpl in Hj.
      subst j'. apply filter_In in H. destruct H as [Hin Hm].
      unfold matching in Hm. simpl in Hm. apply negb_true_iff in Hm.
      apply pystr_eqb_neq in Hm. eapply reaches_obj; eauto.
Qed.

Lemma reaches_arr_iff k v l :
  reaches k v (JArr l) <-> exists j, In j l /\ reaches k v j.
Proof.
  split.
  - intros H. inversion H; subst. eauto.
  - intros [j [Hin Hr]]. eapply reaches_arr; eauto.
Qed.

(** With fuel for every node on the stack the loop ends, and it yields the
    values reached from the stack. *)
Lemma search_loop_spec k fuel :
  forall stack, (stack_weight stack <= fuel)%nat ->
  exists ys, search_loop fuel stack k = Some ys
             /\ forall v, In v ys <-> exists j, In j stack /\ reaches k v j.
Proof.
  induction fuel as [|n IH]; intros stack Hw.
  - destruct stack as [|j stack].
    + exists []. split; [reflexivity|]. intros v. split; [intros []|].
      intros [j [[] _]].
    + unfold stack_weight in Hw. simpl in Hw. pose proof (weight_pos j). lia.
  - simpl. destruct (pop stack) as [[cur st']|] eqn:Hpop.
    + apply pop_some_inv in Hpop. subst stack.
      rewrite stack_weight_app in Hw. unfold stack_weight at 2 in Hw.
      simpl in Hw.
      assert (Hskip : forall c, (forall v, ~ reaches k v c) ->
                (stack_weight st' <= n)%nat ->
                exists ys, search_loop n st' k = Some ys
                  /\ forall v, In v ys <->
                       exists j, In j (st' ++ [c]) /\ reaches k v j).
      { intros c Hc Hn. destruct (IH st' Hn) as [ys [E Hys]].
        exists ys. split; [exact E|]. intros v. rewrite Hys.
        split; intros [j [Hin Hr]]; exists j; split; auto.
        - apply in_or_app. left. exact Hin.
        - apply in_app_or in Hin. destruct Hin as [Hin | [<- | []]];
            [exact Hin | destruct (Hc v Hr)]. }
      destruct cur as [| b | z | s | l | kv]; simpl in Hw.
      * apply Hskip; [intros v H; inversion H | lia].
      * apply Hskip; [intros v H; inversion H | lia].
      * apply Hskip; [intros v H; inversion H | lia].
      * apply Hskip; [intros v H; inversion H | lia].
      * destruct (IH (st' ++ l)) as [ys [E Hys]].
        { rewrite stack_weight_app. unfold stack_weight at 2. lia. }
        exists ys. split; [exact E|]. intros v. rewrite Hys.
        split; intros [j [Hin Hr]]; apply in_app_or in Hin.
        -- destruct Hin as [Hin | Hin].
           ++ exists j. split; [apply in_or_app; left; exact Hin | exact Hr].
           ++ exists (JArr l). split; [apply in_or_app; right; left; auto|].
              eapply reaches_arr; eauto.
        -- destruct Hin as [Hin | [<- | []]].
           ++ exists j. split; [apply in_or_app; left; exact Hin | exact Hr].
           ++ apply reaches_arr_iff in Hr. destruct Hr as [j' [Hin' Hr']].
              exists j'. split; [apply in_or_app; right; exact Hin' | exact Hr'].
      * rewrite scan_items_spec.
        destruct (IH (st' ++ map snd
                        (filter (fun p => negb (matching k p)) kv)))
          as [ys [E Hys]].
        { rewrite stack_weight_app.
          pose proof (weight_filter_le (fun p => negb (matching k p)) kv).
          lia. }
        rewrite E. simpl. eexists. split; [reflexivity|]. intros v.
        rewrite in_app_iff, Hys. split.
        -- intros [H | [j [Hin Hr]]].
           ++ exists (JObj kv). split; [apply in_or_app; right; left; auto|].
              apply reaches_obj_iff. left. exact H.
           ++ apply in_app_or in Hin. destruct Hin as [Hin | Hin].
              ** exists j. split; [apply in_or_app; left; exact Hin|exact Hr].
              ** exists (JObj kv).
                 split; [apply in_or_app; right; left; auto|].
                 apply reaches_obj_iff. right. eauto.
        -- intros [j [Hin Hr]]. apply in_app_or in Hin.
           destruct Hin as [Hin | [<- | []]].
           ++ right. exists j. split; [apply in_or_app; left; exact Hin|].
              exact Hr.
           ++ apply reaches_obj_iff in Hr. destruct Hr as [H | [j' [H Hr']]].
              ** left. exact H.
              ** right. exists j'. split; [apply in_or_app; right|]; auto.
    + apply pop_nil_inv in Hpop. subst stack. exists [].
      split; [reflexivity|]. intros v. split; [intros []|].
      intros [j [[] _]].
Qed.

Lemma search_dict_iff t k v : In v (search_dict t k) <-> reaches k v t.
Proof.
  unfold search_dict.
  destruct (search_loop_spec k (weight t) [t]) as [ys [E Hys]].
  { unfold stack_weight. simpl. lia. }
  rewrite E, Hys. split.
  - intros [j [[<- | []] Hr]]. exact Hr.
  - intros Hr. exists t. split; [left; reflexivity | exact Hr].
Qed.

(** The loop never runs out of the fuel [search_dict] gives it. *)
Lemma search_dict_total t k :
  exists ys, search_loop (weight t) [t] k = Some ys.
Proof.
  destruct (search_loop_spec k (weight t) [t]) as [ys [E _]].
  { unfold stack_weight. simpl. lia. }
  eauto.
Qed.

(** C2, the claim as stated fails: a value under the key inside a value of
    the same key is found under the key in the tree, and is not yielded. *)
Lemma search_dict_misses_nested :
  occurs (lit "commentViewModel") inner_view_model nested_view_model
  /\ ~ In inner_view_model
         (search_dict nested_view_model (lit "commentViewModel")).
Proof.
  split.
  - eapply occurs_obj; [left; reflexivity|]. apply occurs_here. left.
    reflexivity.
  - vm_compute. intros [H | []]. discriminate H.
Qed.

(** C2, amended: [search_dict] yields exactly the values under the key
    that no value of the same key encloses (it does not descend into a
    match), at any depth inside maps and sequences; it yields at least one
    value when the key occurs anywhere in the tree, and nothing when the
    key occurs nowhere or when the input is [None], an empty map or an
    empty sequence. *)
Theorem search_dict_outermost (t : json) (k : pystr) :
  (forall v, In v (search_dict t k) <-> reaches k v t)
  /\ ((exists v, occurs k v t) -> search_dict t k <> [])
  /\ ((forall v, ~ occurs k v t) -> search_dict t k = [])
  /\ search_dict JNull k = []
  /\ search_dict (JObj []) k = []
  /\ search_dict (JArr []) k = [].
Proof.
  split; [intros v; apply search_dict_iff|].
  split; [|split; [|repeat split]].
  - intros [v Hv] E. destruct (occurs_reaches _ _ _ Hv) as [v' Hr].
    apply search_dict_iff in Hr. rewrite E in Hr. destruct Hr.
  - intros Hno. destruct (search_dict t k) as [|v ys] eqn:E; [reflexivity|].
    exfalso. apply (Hno v). apply reaches_occurs. apply search_dict_iff.
    rewrite E. left. reflexivity.
Qed.

(** The key occurs twice in the nested view model, and the search yields
    the outer value alone. *)
Lemma search_dict_outermost_witness :
  search_dict nested_view_model (lit "commentViewModel") <> []
  /\ search_dict nested_view_model (lit "commentViewModel")
     = [JObj [(lit "commentViewModel", inner_view_model)]].
Proof.
  split.
  - apply (search_dict_outermost nested_view_model (lit "commentViewModel")).
    exists inner_view_model. eapply occurs_obj; [left; reflexivity|].
    apply occurs_here. left. reflexivity.
  - reflexivity.
Defined.

(** ** strip *)

Lemma lstrip_decomp s :
  exists a, s = a ++ lstrip s /\ forallb isspace a = true.
Proof.
  induction s as [|c s [a [E Ha]]]; simpl.
  - exists []. split; reflexivity.
  - destruct (isspace c) eqn:Hc.
    + exists (c :: a). simpl. rewrite Hc, Ha, <- E. split; reflexivity.
    + exists []. split; reflexivity.
Qed.

Lemma lstrip_head s c t : lstrip s = c :: t -> isspace c = false.
Proof.
  induction s as [|x s IH]; simpl; [discriminate|].
  destruct (isspace x) eqn:Hx; [exact IH|].
  intros H. injection H as <- _. exact Hx.
Qed.

Lemma lstrip_id c t : isspace c = false -> lstrip (c :: t) = c :: t.
Proof. intros H. simpl. rewrite H. reflexivity. Qed.

Lemma forallb_rev {A} (f : A -> bool) l :
  forallb f (rev l) = forallb f l.
Proof.
  induction l as [|x l IH]; simpl; [reflexivity|].
  rewrite forallb_app, IH. simpl. rewrite andb_true_r. apply andb_comm.
Qed.

(** [s.strip()] is [s] without a leading and a trailing run of whitespace,
    and it neither starts nor ends with whitespace. *)
Lemma strip_spec s :
  (exists a b, s = a ++ strip s ++ b
               /\ forallb isspace a = true /\ forallb isspace b = true)
  /\ (forall c t, strip s = c :: t -> isspace c = false)
  /\ (forall c t, strip s = t ++ [c] -> isspace c = false).
Proof.
  unfold strip, rstrip.
  destruct (lstrip_decomp s) as [a [Ea Ha]].
  destruct (lstrip_decomp (rev (lstrip s))) as [b [Eb Hb]].
  assert (Eu : lstrip s = rev (lstrip (rev (lstrip s))) ++ rev b).
  { rewrite <- rev_app_distr, <- Eb, rev_involutive. reflexivity. }
  split; [|split].
  - exists a, (rev b). split; [|split].
    + rewrite <- Eu. exact Ea.
    + exact Ha.
    + rewrite forallb_rev. exact Hb.
  - intros c t E. rewrite E in Eu. simpl in Eu.
    eapply lstrip_head. exact Eu.
  - intros c t E. apply (f_equal (@rev N)) in E.
    rewrite rev_involutive, rev_app_distr in E. simpl in E.
    eapply lstrip_head. exact E.
Qed.

Lemma strip_empty_iff s : strip s = [] <-> forallb isspace s = true.
Proof.
  destruct (strip_spec s) as [[a [b [E [Ha Hb]]]] [Hhead _]]. split.
  - intros H. rewrite H in E. rewrite E. simpl.
    rewrite forallb_app, Ha, Hb. reflexivity.
  - intros H. destruct (strip s) as [|c t] eqn:Es; [reflexivity|].
    rewrite E, !forallb_app in H. simpl in H.
    rewrite (Hhead c t eq_refl) in H. rewrite andb_false_r in H. simpl in H.
    discriminate H.
Qed.

(** What is left by [strip], if anything, is trimmed. *)
Lemma strip_trimmed s :
  forallb isspace s = false -> trimmed (strip s) = true.
Proof.
  intros F. destruct (strip_spec s) as [_ [Hhead Hlast]].
  destruct (strip s) as [|c t] eqn:E.
  - apply strip_empty_iff in E. congruence.
  - assert (El : c :: t = removelast (c :: t) ++ [last (c :: t) c]).
    { apply app_removelast_last. discriminate. }
    unfold trimmed. rewrite (Hhead c t eq_refl), (Hlast _ _ El).
    reflexivity.
Qed.

Lemma normalize_votes_spec likes v :
  normalize_votes likes = Ok v ->
  exists raw, likes = JStr raw /\ v = votes_of raw.
Proof.
  destruct likes as [| | | raw | |]; simpl; try discriminate.
  intros H. injection H as <-. exists raw. split; [reflexivity|].
  unfold votes_of. destruct (strip raw) as [|c t] eqn:E.
  - apply strip_empty_iff in E. rewrite E. reflexivity.
  - destruct (forallb isspace raw) eqn:F; [|reflexivity].
    apply strip_empty_iff in F. congruence.
Qed.

(** ** Records *)

Ltac bind_inv H :=
  repeat match type of H with
         | bind _ _ = Ok _ =>
             let x := fresh "x" in
             let E := fresh "E" in
             apply bind_ok in H; destruct H as [x [E H]]
         end.

(** What a record that was built says about its entity. *)
Lemma build_record_inv parse st comment r :
  build_record parse st comment = Ok r ->
  exists properties toolbar state_key toolbar_state likes,
    getitem comment (lit "properties") = Ok properties
    /\ getitem properties (lit "commentId") = Ok (cid r)
    /\ getitem comment (lit "toolbar") = Ok toolbar
    /\ getitem properties (lit "toolbarStateKey") = Ok state_key
    /\ dict_getitem (toolbar_states st) state_key = Ok toolbar_state
    /\ getitem toolbar (lit "likeCountNotliked") = Ok likes
    /\ normalize_votes likes = Ok (votes r)
    /\ heart_of toolbar_state = Ok (heart r)
    /\ contains (cid r) (lit ".") = Ok (reply r)
    /\ (forall p, paid r = Some p -> dict_find (payments st) (cid r) = Some p).
Proof.
  unfold build_record. intros H. bind_inv H. injection H as <-. simpl.
  exists x, x2, x3, x4, x10. repeat (split; [assumption|]).
  intros p. destruct x16; [auto | discriminate].
Qed.

Lemma emit_app parse st before after :
  emit parse st (before ++ after) =
  match emit parse st before with
  | (rs, Some e) => (rs, Some e)
  | (rs, None) => let '(rs', e) := emit parse st after in (rs ++ rs', e)
  end.
Proof.
  induction before as [|c before IH]; simpl.
  - destruct (emit parse st after). reflexivity.
  - destruct (build_record parse st c); [|reflexivity].
    rewrite IH. destruct (emit parse st before) as [rs [e|]].
    + reflexivity.
    + destruct (emit parse st after). reflexivity.
Qed.

(** Every record yielded is the record of an entity of the list. *)
Lemma emit_In parse st comments r :
  In r (fst (emit parse st comments)) ->
  exists comment, In comment comments
                  /\ build_record parse st comment = Ok r.
Proof.
  induction comments as [|c comments IH]; simpl; [intros []|].
  destruct (build_record parse st c) as [r0|e] eqn:E; [|intros []].
  destruct (emit parse st comments) as [rs e]. simpl in *.
  intros [<- | H].
  - exists c. auto.
  - destruct (IH H) as [c' [Hin Hc']]. exists c'. auto.
Qed.

Lemma emit_length parse st comments :
  (length (fst (emit parse st comments)) <= length comments)%nat.
Proof.
  induction comments as [|c comments IH]; simpl; [lia|].
  destruct (build_record parse st c); simpl; [|lia].
  destruct (emit parse st comments). simpl in *. lia.
Qed.

(** The loop stops at the first entity whose record cannot be built. *)
Lemma emit_stops parse st before comment after e :
  build_record parse st comment = Raise e ->
  exists rs e', emit parse st (before ++ comment :: after) = (rs, Some e')
    /\ (length rs <= length before)%nat
    /\ forall r, In r rs ->
         exists c, In c before /\ build_record parse st c = Ok r.
Proof.
  intros Hc. rewrite emit_app.
  pose proof (emit_length parse st before) as Hlen.
  pose proof (fun r => emit_In parse st before r) as Hin.
  destruct (emit parse st before) as [rs [e'|]]; simpl in *.
  - exists rs, e'. auto.
  - rewrite Hc. exists (rs ++ []), e. rewrite app_nil_r. auto.
Qed.

(** ** Passes of the loop *)

(** The records of a pass are those of the entities of the response it
    received, built with the tables computed for that response. *)
Lemma pass_inv srv parse ytcfg sleep st w rs o w1 :
  pass srv parse ytcfg sleep st w = (rs, o, w1) ->
  rs = []
  \/ exists continuation rest response w0 st1,
       pop (continuations st) = Some (continuation, rest)
       /\ ajax srv continuation ytcfg w = (Ok response, w0)
       /\ reconcile response rest st = Ok st1
       /\ rs = fst (emit parse st1 (entities_of response)).
Proof.
  unfold pass.
  destruct (pop (continuations st)) as [[continuation rest]|] eqn:Hpop;
    [|intros H; injection H as <- _ _; auto].
  destruct (ajax srv continuation ytcfg w) as [[response|e] w0] eqn:Hajax;
    [|intros H; injection H as <- _ _; auto].
  destruct (negb (truthy response)); [intros H; injection H as <- _ _; auto|].
  destruct (truthy _); [intros H; injection H as <- _ _; auto|].
  destruct (reconcile response rest st) as [st1|e] eqn:Hrec;
    [|intros H; injection H as <- _ _; auto].
  destruct (emit parse st1 (entities_of response)) as [rs1 [e|]] eqn:Hemit;
    intros H; injection H as <- _ _; right;
    exists continuation, rest, response, w0, st1; rewrite Hemit; auto.
Qed.

Lemma pass_emitted srv parse ytcfg sleep st w r :
  In r (fst (fst (pass srv parse ytcfg sleep st w))) ->
  exists response comment st1, emitted_from parse response comment st1 r.
Proof.
  destruct (pass srv parse ytcfg sleep st w) as [[rs o] w1] eqn:Hp.
  simpl. intros Hin.
  destruct (pass_inv _ _ _ _ _ _ _ _ _ Hp)
    as [-> | [c [rest [response [w0 [st1 [_ [_ [Hrec ->]]]]]]]]];
    [destruct Hin|].
  destruct (emit_In _ _ _ _ Hin) as [comment [Hc Hb]].
  exists response, comment, st1. unfold emitted_from. eauto.
Qed.

Lemma paginate_emitted fuel srv parse ytcfg sleep :
  forall st w r,
  In r (fst (fst (paginate fuel srv parse ytcfg sleep st w))) ->
  exists response comment st1, emitted_from parse response comment st1 r.
Proof.
  induction fuel as [|n IH]; intros st w r; simpl; [intros []|].
  pose proof (pass_emitted srv parse ytcfg sleep st w r) as Hp.
  destruct (pass srv parse ytcfg sleep st w) as [[rs [st1|e]] w1];
    simpl in *.
  - specialize (IH st1 w1 r).
    destruct (paginate n srv parse ytcfg sleep st1 w1) as [[rs' e] w2].
    simpl in *. intros H. apply in_app_or in H. destruct H; auto.
  - exact Hp.
Qed.

(** Every record of a run is built from an entity of a response, with the
    tables of that response. *)
Lemma get_comments_emitted fuel srv parse ytcfg data sort_by sleep w r :
  In r (fst (fst (get_comments_from_url fuel srv parse ytcfg data sort_by
                    sleep w))) ->
  exists response comment st1, emitted_from parse response comment st1 r.
Proof.
  unfold get_comments_from_url.
  destruct (negb (truthy ytcfg)); [intros []|].
  match goal with |- context [if ?b then _ else _] => destruct b end;
    [intros []|].
  destruct (resolve_sort srv data ytcfg sort_by w) as [[queue|e] w1];
    [|intros []].
  apply paginate_emitted.
Qed.

(** ** Vote counts *)

Lemma trimmed_votes raw : trimmed raw = true -> votes_of raw = raw.
Proof.
  destruct raw as [|c t]; [discriminate|]. intros H.
  apply andb_true_iff in H. destruct H as [Hc Hd].
  apply negb_true_iff in Hc. apply negb_true_iff in Hd.
  unfold votes_of. change (forallb isspace (c :: t))
    with (isspace c && forallb isspace t). rewrite Hc. simpl andb. cbv iota.
  unfold strip, rstrip. rewrite (lstrip_id _ _ Hc).
  assert (E : c :: t = removelast (c :: t) ++ [last (c :: t) c]).
  { apply app_removelast_last. discriminate. }
  assert (R : rev (c :: t) = last (c :: t) c :: rev (removelast (c :: t))).
  { rewrite E at 1. rewrite rev_app_distr. reflexivity. }
  rewrite R, (lstrip_id _ _ Hd), <- R. apply rev_involutive.
Qed.

(** C3, the claim as stated fails: the example run yields the record of
    comment [c1], whose raw like count [" 5"] is not blank, with the votes
    ["5"], which is not the raw string. *)
Lemma votes_not_raw :
  exists r toolbar,
    In r example_records
    /\ cid r = jstr "c1"
    /\ getitem (example_entity "c1" "state1" " 5") (lit "toolbar")
       = Ok toolbar
    /\ getitem toolbar (lit "likeCountNotliked") = Ok (jstr " 5")
    /\ forallb isspace (lit " 5") = false
    /\ votes r = lit "5"
    /\ votes r <> lit " 5".
Proof.
  eexists. eexists. split; [left; reflexivity|].
  split; [reflexivity|]. split; [reflexivity|]. split; [reflexivity|].
  split; [reflexivity|]. split; [reflexivity|]. vm_compute. discriminate.
Qed.

(** C3, amended: the votes of every record yielded are ["0"] when the raw
    like count is empty or whitespace only, and otherwise the raw string
    without its leading and trailing whitespace ([str.strip]); they are the
    raw string itself when it neither starts nor ends with whitespace,
    numeric or not. *)
Theorem votes_normalized fuel srv parse ytcfg data sort_by sleep w :
  Forall
    (fun r =>
       exists response comment st toolbar raw,
         emitted_from parse response comment st r
         /\ getitem comment (lit "toolbar") = Ok toolbar
         /\ getitem toolbar (lit "likeCountNotliked") = Ok (JStr raw)
         /\ (forallb isspace raw = true -> votes r = lit "0")
         /\ (forallb isspace raw = false ->
             votes r = strip raw
             /\ trimmed (votes r) = true
             /\ exists a b, raw = a ++ votes r ++ b
                            /\ forallb isspace a = true
                            /\ forallb isspace b = true)
         /\ (trimmed raw = true -> votes r = raw))
    (fst (fst (get_comments_from_url fuel srv parse ytcfg data sort_by
                 sleep w))).
Proof.
  apply Forall_forall. intros r Hin.
  destruct (get_comments_emitted _ _ _ _ _ _ _ _ _ Hin)
    as [response [comment [st Hem]]].
  pose proof Hem as [_ [_ Hb]].
  destruct (build_record_inv _ _ _ _ Hb)
    as [properties [toolbar [state_key [toolbar_state [likes H]]]]].
  destruct H as [_ [_ [Htb [_ [_ [Hlikes [Hvotes _]]]]]]].
  destruct (normalize_votes_spec _ _ Hvotes) as [raw [-> Ev]].
  exists response, comment, st, toolbar, raw.
  repeat (split; [assumption|]). rewrite Ev. split; [|split].
  - intros F. unfold votes_of. rewrite F. reflexivity.
  - intros F. unfold votes_of. rewrite F.
    split; [reflexivity|]. split; [apply strip_trimmed; exact F|].
    destruct (strip_spec raw) as [[a [b H]] _]. exists a, b. exact H.
  - apply trimmed_votes.
Qed.

(** The two records of the example run: a stripped count and a blank one. *)
Lemma votes_normalized_example :
  map votes example_records = [lit "5"; lit "0"].
Proof. reflexivity. Qed.

Lemma votes_normalized_witness :
  Forall
    (fun r =>
       exists response comment st toolbar raw,
         emitted_from no_dates response comment st r
         /\ getitem comment (lit "toolbar") = Ok toolbar
         /\ getitem toolbar (lit "likeCountNotliked") = Ok (JStr raw)
         /\ (forallb isspace raw = true -> votes r = lit "0")
         /\ (forallb isspace raw = false ->
             votes r = strip raw
             /\ trimmed (votes r) = true
             /\ exists a b, raw = a ++ votes r ++ b
                            /\ forallb isspace a = true
                            /\ forallb isspace b = true)
         /\ (trimmed raw = true -> votes r = raw))
    example_records.
Proof.
  exact (votes_normalized 10 example_server no_dates example_ytcfg
           example_data 1 (1 # 10) world0).
Defined.

(** ** The heart flag *)

Lemma is_str_eq j s : is_str j s = true <-> j = JStr s.
Proof.
  destruct j; simpl; try (split; [discriminate | discriminate]).
  rewrite pystr_eqb_eq. split; congruence.
Qed.

Lemma heart_of_spec toolbar_state h :
  heart_of toolbar_state = Ok h ->
  exists entries,
    toolbar_state = JObj entries
    /\ (h = true <->
        lookup entries (lit "heartState")
        = Some (JStr (lit "TOOLBAR_HEART_STATE_HEARTED")))
    /\ (lookup entries (lit "heartState") = None -> h = false).
Proof.
  unfold heart_of. intros H.
  destruct toolbar_state as [| | | | |entries]; simpl in H;
    try discriminate H.
  exists entries. split; [reflexivity|].
  destruct (lookup entries (lit "heartState")) as [v|]; simpl in H;
    injection H as <-.
  - split; [|discriminate]. rewrite is_str_eq. split; congruence.
  - split; [|reflexivity]. split; discriminate.
Qed.

(** An entity with all its fields gets a record, whatever its
    toolbar-state entry holds. *)
Lemma complete_entity_record parse st comment entries :
  complete_entity st comment entries ->
  exists r,
    build_record parse st comment = Ok r
    /\ heart_of (JObj entries) = Ok (heart r).
Proof.
  intros H.
  destruct H as [properties [id [author [toolbar [state_key H]]]]].
  destruct H as [content [text [time [name [channel H]]]]].
  destruct H as [likes [replies [photo H]]].
  destruct H as [Hp [Hid [Ha [Ht [Hk [Hs [Hc [Hx [Hm [Hn [Hch H]]]]]]]]]]].
  destruct H as [Hl [Hr Hph]].
  unfold build_record.
  rewrite Hp; cbn [bind]. rewrite Hid; cbn [bind]. rewrite Ha; cbn [bind].
  rewrite Ht; cbn [bind]. rewrite Hk; cbn [bind]. rewrite Hs; cbn [bind].
  rewrite Hc; cbn [bind]. rewrite Hx; cbn [bind]. rewrite Hm; cbn [bind].
  rewrite Hn; cbn [bind]. rewrite Hch; cbn [bind]. rewrite Hl; cbn [bind].
  cbn [normalize_votes bind]. rewrite Hr; cbn [bind].
  rewrite Hph; cbn [bind].
  unfold heart_of. cbn [get].
  destruct (lookup entries (lit "heartState"));
    cbn [bind contains dict_contains hashable];
    eexists; split; reflexivity.
Qed.

(** C10: the heart flag of every record yielded is true exactly when the
    toolbar-state entry of the record has the key [heartState] with the
    value [TOOLBAR_HEART_STATE_HEARTED].  And an entry without the key is
    no error: an entity that has all the fields the record reads, and
    whose toolbar-state entry is in the map, gets its record, which is
    yielded before the loop goes on with the next entity, whether the
    entry has the key or not; without the key the flag is false. *)
Theorem heart_flag fuel srv parse ytcfg data sort_by sleep w :
  Forall
    (fun r =>
       exists response comment st properties state_key entries,
         emitted_from parse response comment st r
         /\ getitem comment (lit "properties") = Ok properties
         /\ getitem properties (lit "toolbarStateKey") = Ok state_key
         /\ dict_getitem (toolbar_states st) state_key = Ok (JObj entries)
         /\ (heart r = true <->
             lookup entries (lit "heartState")
             = Some (JStr (lit "TOOLBAR_HEART_STATE_HEARTED")))
         /\ (lookup entries (lit "heartState") = None -> heart r = false))
    (fst (fst (get_comments_from_url fuel srv parse ytcfg data sort_by
                 sleep w)))
  /\ forall st comment entries,
       complete_entity st comment entries ->
       exists r,
         build_record parse st comment = Ok r
         /\ (forall rest,
               emit parse st (comment :: rest)
               = (r :: fst (emit parse st rest), snd (emit parse st rest)))
         /\ (heart r = true <->
             lookup entries (lit "heartState")
             = Some (JStr (lit "TOOLBAR_HEART_STATE_HEARTED")))
         /\ (lookup entries (lit "heartState") = None -> heart r = false).
Proof.
  split.
  - apply Forall_forall. intros r Hin.
    destruct (get_comments_emitted _ _ _ _ _ _ _ _ _ Hin)
      as [response [comment [st Hem]]].
    pose proof Hem as [_ [_ Hb]].
    destruct (build_record_inv _ _ _ _ Hb)
      as [properties [toolbar [state_key [toolbar_state [likes H]]]]].
    destruct H as [Hp [_ [_ [Hk [Hts [_ [_ [Hh _]]]]]]]].
    destruct (heart_of_spec _ _ Hh) as [entries [-> [Hiff Hnone]]].
    exists response, comment, st, properties, state_key, entries. auto 10.
  - intros st comment entries Hc.
    destruct (complete_entity_record parse _ _ _ Hc) as [r [Hr Hh]].
    exists r. split; [exact Hr|]. split.
    + intros rest. simpl. rewrite Hr.
      destruct (emit parse st rest). reflexivity.
    + destruct (heart_of_spec _ _ Hh) as [entries' [E [Hiff Hnone]]].
      injection E as <-. split; assumption.
Qed.

Lemma heart_flag_witness :
  Forall
    (fun r =>
       exists response comment st properties state_key entries,
         emitted_from no_dates response comment st r
         /\ getitem comment (lit "properties") = Ok properties
         /\ getitem properties (lit "toolbarStateKey") = Ok state_key
         /\ dict_getitem (toolbar_states st) state_key = Ok (JObj entries)
         /\ (heart r = true <->
             lookup entries (lit "heartState")
             = Some (JStr (lit "TOOLBAR_HEART_STATE_HEARTED")))
         /\ (lookup entries (lit "heartState") = None -> heart r = false))
    example_records
  /\ exists r,
       build_record no_dates example_next (example_entity "c1.r1" "state2" " ")
       = Ok r
       /\ heart r = false.
Proof.
  destruct (heart_flag 10 example_server no_dates example_ytcfg example_data
              1 (1 # 10) world0) as [H1 H2].
  split; [exact H1|].
  destruct (H2 example_next (example_entity "c1.r1" "state2" " ")
              [(lit "key", jstr "state2")]) as [r [Hr [_ [_ Hnone]]]].
  - unfold complete_entity. do 13 eexists.
    repeat split; reflexivity.
  - exists r. split; [exact Hr | apply Hnone; reflexivity].
Defined.

(** In the example run the first entity has a hearted toolbar state and
    the second a toolbar state without [heartState]. *)
Lemma heart_flag_example : map heart example_records = [true; false].
Proof. reflexivity. Qed.

(** ** A missing toolbar state *)

Lemma missing_state_raises parse st comment :
  toolbar_state_missing st comment = true ->
  exists e, build_record parse st comment = Raise e.
Proof.
  unfold toolbar_state_missing, build_record. intros H.
  destruct (getitem comment (lit "properties")) as [properties|e];
    simpl in *; [|discriminate H].
  destruct (getitem properties (lit "toolbarStateKey")) as [state_key|e]
    eqn:Hk; [|discriminate H].
  destruct (getitem properties (lit "commentId")); simpl; [|eauto].
  destruct (getitem comment (lit "author")); simpl; [|eauto].
  destruct (getitem comment (lit "toolbar")); simpl; [|eauto].
  unfold dict_getitem.
  destruct (dict_find (toolbar_states st) state_key); [discriminate H|].
  destruct (hashable state_key); simpl; eauto.
Qed.

Lemma falsy_no_entities response k :
  truthy response = false -> search_dict response k = [].
Proof.
  destruct response as [| b | z | s | [|x l] | [|p kv]]; simpl;
    try discriminate; reflexivity.
Qed.

(** C4: when an entity of a response names a toolbar state that is not in
    the toolbar map of that response, the pass yields records for entities
    before it only, none for it or for a later one, and the generator ends
    by raising: no default-filled record, no end of stream. *)
Theorem missing_toolbar_state_aborts n srv parse ytcfg sleep st w
    continuation rest response w1 st1 before comment after :
  pop (continuations st) = Some (continuation, rest) ->
  ajax srv continuation ytcfg w = (Ok response, w1) ->
  reconcile response rest st = Ok st1 ->
  entities_of response = before ++ comment :: after ->
  toolbar_state_missing st1 comment = true ->
  exists rs e,
    paginate (S n) srv parse ytcfg sleep st w = (rs, Raised e, w1)
    /\ (length rs <= length before)%nat
    /\ forall r, In r rs ->
         exists c, In c before /\ build_record parse st1 c = Ok r.
Proof.
  intros Hpop Hajax Hrec Hent Hmiss.
  destruct (missing_state_raises parse _ _ Hmiss) as [e He].
  destruct (emit_stops parse st1 before comment after e He)
    as [rs [e' [Hemit [Hlen Hin]]]].
  assert (Hpass : exists rs0 e0,
            pass srv parse ytcfg sleep st w = (rs0, Stop (Raised e0), w1)
            /\ (length rs0 <= length before)%nat
            /\ forall r, In r rs0 ->
                 exists c, In c before /\ build_record parse st1 c = Ok r).
  { unfold pass. rewrite Hpop, Hajax.
    destruct (truthy response) eqn:Ht; simpl.
    - destruct (truthy (next_or (search_dict response
                                   (lit "externalErrorMessage")) JNull)).
      + eexists [], _. split; [reflexivity|]. split; [simpl; lia|].
        intros r [].
      + rewrite Hrec, Hent, Hemit. exists rs, e'. auto.
    - unfold entities_of in Hent.
      rewrite (falsy_no_entities _ _ Ht) in Hent. simpl in Hent.
      destruct before; discriminate Hent. }
  destruct Hpass as [rs0 [e0 [Hpass H]]].
  exists rs0, e0. split; [|exact H]. simpl. rewrite Hpass. reflexivity.
Qed.

Lemma missing_toolbar_state_aborts_witness :
  exists rs e,
    paginate 1 broken_server no_dates example_ytcfg (1 # 10)
      (first_locals "recent") world0
    = (rs, Raised e,
       snd (ajax broken_server (example_endpoint "recent") example_ytcfg
              world0))
    /\ (length rs <= 1)%nat
    /\ forall r, In r rs ->
         exists c, In c [example_entity "c1" "state1" "7"]
                   /\ build_record no_dates (tables_of broken_page) c = Ok r.
Proof.
  apply (missing_toolbar_state_aborts 0 broken_server no_dates example_ytcfg
           (1 # 10) (first_locals "recent") world0
           (example_endpoint "recent") [] broken_page
           (snd (ajax broken_server (example_endpoint "recent")
                   example_ytcfg world0))
           (tables_of broken_page)
           [example_entity "c1" "state1" "7"]
           (example_entity "c2" "state9" "1")
           [example_entity "c3" "state2" "2"]);
    reflexivity.
Defined.

(** The run on the broken page: the record of [c1], then a [KeyError]. *)
Lemma missing_toolbar_state_example :
  let '(rs, e, _) :=
    paginate 5 broken_server no_dates example_ytcfg (1 # 10)
      (first_locals "recent") world0 in
  map cid rs = [jstr "c1"] /\ e = Raised KeyError.
Proof. vm_compute. split; reflexivity. Qed.

(** ** Reconciliation *)

Lemma foldM_inv {A B} (f : B -> A -> result B) (P : B -> Prop) l :
  forall acc r,
  P acc ->
  (forall acc x acc', In x l -> P acc -> f acc x = Ok acc' -> P acc') ->
  foldM f l acc = Ok r -> P r.
Proof.
  induction l as [|x l IH]; simpl; intros acc r Hacc Hstep H.
  - injection H as <-. exact Hacc.
  - apply bind_ok in H. destruct H as [acc' [E H]].
    apply (IH acc' r).
    + apply (Hstep acc x acc'); [left; reflexivity | exact Hacc | exact E].
    + intros a y a' Hin. apply Hstep. right. exact Hin.
    + exact H.
Qed.

Lemma dict_find_In {V} (d : pydict V) k v :
  dict_find d k = Some v -> exists k', In (k', v) d.
Proof.
  induction d as [|[k' v'] d IH]; simpl; [discriminate|].
  destruct (key_eqb k' k).
  - intros H. injection H as <-. eauto.
  - intros H. destruct (IH H) as [k0 H0]. eauto.
Qed.

Lemma dict_set_In {V} (d : pydict V) k v a b :
  In (a, b) (dict_set d k v) -> b = v \/ In (a, b) d.
Proof.
  induction d as [|[k' v'] d IH]; simpl.
  - intros [H | []]. injection H as _ <-. auto.
  - destruct (key_eqb k' k); simpl.
    + intros [H | H]; [injection H as _ <-|]; auto.
    + intros [H | H]; [auto|]. destruct (IH H); auto.
Qed.

Lemma dict_setitem_In {V} (d d' : pydict V) k v a b :
  dict_setitem d k v = Ok d' -> In (a, b) d' -> b = v \/ In (a, b) d.
Proof.
  unfold dict_setitem. destruct (hashable k); [|discriminate].
  intros H. injection H as <-. apply dict_set_In.
Qed.

(** The toolbar map of a pass holds toolbar payloads of its response. *)
Lemma toolbars_scoped response st st1 :
  side_toolbars response st = Ok st1 ->
  payments st1 = payments st
  /\ forall a b, In (a, b) (toolbar_states st1) ->
       In b (search_dict response
               (lit "engagementToolbarStateEntityPayload")).
Proof.
  unfold side_toolbars. intros H. bind_inv H. injection H as <-. simpl.
  split; [reflexivity|].
  refine (foldM_inv _
            (fun acc => forall a b, In (a, b) acc ->
               In b (search_dict response
                       (lit "engagementToolbarStateEntityPayload")))
            _ _ _ _ _ E).
  - intros a b [].
  - intros acc payload acc' Hin Hacc Hadd a b Hab.
    unfold add_toolbar_state in Hadd. bind_inv Hadd.
    destruct (dict_setitem_In _ _ _ _ _ _ Hadd Hab) as [-> | H]; auto.
    eapply Hacc; eauto.
Qed.

(** The payments of a pass hold badge texts of surface payloads of its
    response. *)
Lemma payments_scoped response st st1 :
  side_payments response st = Ok st1 ->
  forall a b, In (a, b) (payments st1) ->
    exists payload,
      In payload (search_dict response (lit "commentSurfaceEntityPayload"))
      /\ b = badge_of payload.
Proof.
  unfold side_payments. intros H. bind_inv H.
  assert (H1 : forall a b, In (a, b) x ->
            exists payload,
              In payload
                (search_dict response (lit "commentSurfaceEntityPayload"))
              /\ b = badge_of payload).
  { refine (foldM_inv _
              (fun acc => forall a b, In (a, b) acc ->
                 exists payload,
                   In payload
                     (search_dict response
                        (lit "commentSurfaceEntityPayload"))
                   /\ b = badge_of payload)
              _ _ _ _ _ E).
    - intros a b [].
    - intros acc payload acc' Hin Hacc Hadd a b Hab.
      unfold add_payment in Hadd. bind_inv Hadd.
      destruct x0.
      + bind_inv Hadd.
        destruct (dict_setitem_In _ _ _ _ _ _ Hadd Hab) as [-> | H'].
        * exists payload. split; [exact Hin | reflexivity].
        * eapply Hacc; eauto.
      + injection Hadd as <-. eapply Hacc; eauto. }
  destruct x as [|p x].
  - injection H as <-. simpl. intros a b [].
  - bind_inv H. injection H as <-. simpl.
    assert (H2 : forall a b, In (a, b) x2 ->
              exists a0, In (a0, b) (p :: x)).
    { refine (foldM_inv _
                (fun acc => forall a b, In (a, b) acc ->
                   exists a0, In (a0, b) (p :: x))
                _ _ _ _ _ E2).
      - intros a b [].
      - intros acc [key payment] acc' Hin Hacc Hadd a b Hab.
        unfold resolve_payment in Hadd. bind_inv Hadd.
        destruct x3.
        + bind_inv Hadd.
          destruct (dict_setitem_In _ _ _ _ _ _ Hadd Hab) as [-> | H'].
          * eauto.
          * eapply Hacc; eauto.
        + injection Hadd as <-. eapply Hacc; eauto. }
    intros a b Hab. destruct (H2 a b Hab) as [a0 H0]. eapply H1; eauto.
Qed.

Lemma reconcile_scoped response rest st st1 :
  reconcile response rest st = Ok st1 ->
  (forall a b, In (a, b) (toolbar_states st1) ->
     In b (search_dict response (lit "engagementToolbarStateEntityPayload")))
  /\ (forall a b, In (a, b) (payments st1) ->
        exists payload,
          In payload
            (search_dict response (lit "commentSurfaceEntityPayload"))
          /\ b = badge_of payload).
Proof.
  unfold reconcile. intros H. bind_inv H.
  destruct (toolbars_scoped _ _ _ H) as [Hp Ht]. split; [exact Ht|].
  rewrite Hp. eapply payments_scoped; eauto.
Qed.

Lemma emitted_scoped parse response comment st r :
  emitted_from parse response comment st r -> scoped parse r.
Proof.
  intros Hem. pose proof Hem as [[rest [st0 Hrec]] [_ Hb]].
  destruct (reconcile_scoped _ _ _ _ Hrec) as [Ht Hp].
  destruct (build_record_inv _ _ _ _ Hb)
    as [properties [toolbar [state_key [toolbar_state [likes H]]]]].
  destruct H as [Hprop [_ [_ [Hk [Hts [_ [_ [Hh [_ Hpaid]]]]]]]]].
  exists response, comment, st, properties, state_key, toolbar_state.
  repeat (split; [assumption|]). split; [|split; [exact Hh|]].
  - unfold dict_getitem in Hts. destruct (hashable state_key);
      [|discriminate].
    destruct (dict_find (toolbar_states st) state_key) as [v|] eqn:F;
      [|discriminate].
    injection Hts as ->. destruct (dict_find_In _ _ _ F) as [k' Hin].
    eapply Ht; eauto.
  - intros badge Hb'. destruct (dict_find_In _ _ _ (Hpaid _ Hb'))
      as [k' Hin].
    eapply Hp; eauto.
Qed.

(** A record depends on the locals through the two tables only. *)
Lemma build_record_tables parse st st' comment :
  payments st = payments st' ->
  toolbar_states st = toolbar_states st' ->
  build_record parse st comment = build_record parse st' comment.
Proof. unfold build_record. intros -> ->. reflexivity. Qed.

Lemma emit_tables parse st st' comments :
  payments st = payments st' ->
  toolbar_states st = toolbar_states st' ->
  emit parse st comments = emit parse st' comments.
Proof.
  intros Hp Ht. induction comments as [|c comments IH]; simpl;
    [reflexivity|].
  rewrite (build_record_tables parse st st' c Hp Ht), IH. reflexivity.
Qed.

(** The tables a pass computes do not depend on the tables it starts
    with. *)
Lemma reconcile_tables response rest st st' :
  match reconcile response rest st, reconcile response rest st' with
  | Ok a, Ok b =>
      continuations a = continuations b
      /\ payments a = payments b
      /\ toolbar_states a = toolbar_states b
  | Raise e, Raise e' => e = e'
  | _, _ => False
  end.
Proof.
  unfold reconcile.
  destruct (collect_continuations response rest) as [queue|e];
    cbn [bind]; [|reflexivity].
  unfold side_payments.
  destruct (foldM add_payment _ []) as [payments1|e]; cbn [bind];
    [|reflexivity].
  destruct payments1 as [|p payments1].
  - unfold side_toolbars.
    destruct (foldM add_toolbar_state _ []); cbn; auto.
  - destruct (mapM _ _) as [view_models|e]; cbn [bind]; [|reflexivity].
    destruct (foldM add_surface_key view_models []) as [sk|e]; cbn [bind];
      [|reflexivity].
    destruct (foldM (resolve_payment sk) (p :: payments1) []) as [p2|e];
      cbn [bind]; [|reflexivity].
    unfold side_toolbars.
    destruct (foldM add_toolbar_state _ []); cbn; auto.
Qed.

Lemma pass_tables srv parse ytcfg sleep st st' w :
  continuations st = continuations st' ->
  match pass srv parse ytcfg sleep st w, pass srv parse ytcfg sleep st' w with
  | (rs, Stop e, w1), (rs', Stop e', w1') => rs = rs' /\ e = e' /\ w1 = w1'
  | (rs, Continue a, w1), (rs', Continue b, w1') =>
      rs = rs' /\ continuations a = continuations b /\ w1 = w1'
  | _, _ => False
  end.
Proof.
  intros Hq. unfold pass. rewrite <- Hq.
  destruct (pop (continuations st)) as [[continuation rest]|]; [|auto].
  destruct (ajax srv continuation ytcfg w) as [[response|e] w1]; [|auto].
  destruct (negb (truthy response)); [auto|].
  destruct (truthy _); [auto|].
  pose proof (reconcile_tables response rest st st') as H.
  destruct (reconcile response rest st) as [a|e],
           (reconcile response rest st') as [b|e']; try contradiction.
  - destruct H as [Hc [Hp Ht]].
    rewrite (emit_tables parse a b _ Hp Ht).
    destruct (emit parse b (entities_of response)) as [rs [e|]]; auto.
  - subst e'. auto.
Qed.

Lemma paginate_tables fuel srv parse ytcfg sleep :
  forall st st' w,
  continuations st = continuations st' ->
  paginate fuel srv parse ytcfg sleep st w
  = paginate fuel srv parse ytcfg sleep st' w.
Proof.
  induction fuel as [|n IH]; intros st st' w Hq; simpl; [reflexivity|].
  pose proof (pass_tables srv parse ytcfg sleep st st' w Hq) as H.
  destruct (pass srv parse ytcfg sleep st w) as [[rs [a|e]] w1],
           (pass srv parse ytcfg sleep st' w) as [[rs' [b|e']] w1'];
    try contradiction.
  - destruct H as [-> [Hc ->]]. rewrite (IH a b w1' Hc). reflexivity.
  - destruct H as [-> [-> ->]]. reflexivity.
Qed.

(** C7: reconciliation is scoped to one response.  The records, the end
    and the effects of the pagination loop do not depend on the payment
    table, the surface-key table and the toolbar table that are left from
    an earlier response; and for every record yielded the toolbar state
    and the paid badge joined onto it are side payloads of the response
    that carries its entity. *)
Theorem reconciliation_response_scoped fuel srv parse ytcfg data sort_by
    sleep w :
  (forall n queue p s t p' s' t' w0,
     paginate n srv parse ytcfg sleep (mkLocals queue p s t) w0
     = paginate n srv parse ytcfg sleep (mkLocals queue p' s' t') w0)
  /\ Forall (scoped parse)
       (fst (fst (get_comments_from_url fuel srv parse ytcfg data sort_by
                    sleep w))).
Proof.
  split.
  - intros. apply paginate_tables. reflexivity.
  - apply Forall_forall. intros r Hin.
    destruct (get_comments_emitted _ _ _ _ _ _ _ _ _ Hin)
      as [response [comment [st Hem]]].
    eapply emitted_scoped. exact Hem.
Qed.

Lemma reconciliation_response_scoped_witness :
  paginate 5 stale_server no_dates example_ytcfg (1 # 10)
    (mkLocals [example_endpoint "recent"] [] [] []) world0
  = paginate 5 stale_server no_dates example_ytcfg (1 # 10)
      (mkLocals [example_endpoint "recent"]
         [(jstr "c1", jstr "$1.00")] [] [(jstr "state9", hearted_state)])
      world0
  /\ Forall (scoped no_dates) example_records.
Proof.
  destruct (reconciliation_response_scoped 10 example_server no_dates
              example_ytcfg example_data 1 (1 # 10) world0) as [_ H2].
  destruct (reconciliation_response_scoped 10 stale_server no_dates
              example_ytcfg example_data 1 (1 # 10) world0) as [H1 _].
  split; [apply H1 | exact H2].
Defined.

(** The second response names the toolbar state [state1] and the comment
    [c1] of the first one and carries no side payload: the state and the
    badge received with the first response are not applied, the lookup
    fails. *)
Lemma stale_state_not_reused :
  let '(rs, e, _) :=
    paginate 5 stale_server no_dates example_ytcfg (1 # 10)
      (first_locals "recent") world0 in
  map cid rs = [jstr "c1"; jstr "c1.r1"]
  /\ map paid rs = [Some (jstr "$5.00"); None]
  /\ e = Raised KeyError.
Proof. vm_compute. repeat split. Qed.

(** ** The continuation queue *)

Lemma scan_item_exact action queue item queue' :
  scan_item action queue item = Ok queue' ->
  queue' = same_feed_of action item ++ queue ++ reply_of action item.
Proof.
  unfold scan_item, same_feed_of, reply_of. intros H. bind_inv H.
  rename x into target, x0 into replies_target. rewrite E.
  destruct target as [| | | target | |]; try discriminate E0.
  injection E0 as <-.
  assert (Eq : (if existsb (is_str (JStr target)) comment_sections
                then search_dict item (lit "continuationEndpoint") ++ queue
                else queue)
               = (if existsb (is_str (JStr target)) comment_sections
                  then search_dict item (lit "continuationEndpoint")
                  else []) ++ queue).
  { destruct (existsb (is_str (JStr target)) comment_sections);
      reflexivity. }
  rewrite Eq in H. clear Eq.
  destruct (startswith target (lit "comment-replies-item"));
    [|injection H as <-; rewrite app_nil_r; reflexivity].
  bind_inv H. rename x into more. rewrite E0.
  destruct more; [|injection H as <-; rewrite app_nil_r; reflexivity].
  destruct (search_dict item (lit "buttonRenderer")) as [|button others];
    [discriminate H|].
  bind_inv H. rewrite E1. injection H as <-.
  rewrite <- app_assoc. reflexivity.
Qed.

Lemma scan_items_exact action items :
  forall queue queue',
  foldM (scan_item action) items queue = Ok queue' ->
  queue' = flat_map (same_feed_of action) (rev items) ++ queue
           ++ flat_map (reply_of action) items.
Proof.
  induction items as [|item items IH]; simpl; intros queue queue' H.
  - injection H as <-. rewrite app_nil_r. reflexivity.
  - apply bind_ok in H. destruct H as [queue1 [E H]].
    apply scan_item_exact in E. apply IH in H. subst queue1 queue'.
    rewrite flat_map_app. simpl. rewrite app_nil_r, <- !app_assoc.
    reflexivity.
Qed.

Lemma scan_action_exact action queue queue' :
  scan_action queue action = Ok queue' ->
  queue' = flat_map (same_feed_of action) (rev (items_list action)) ++ queue
           ++ flat_map (reply_of action) (items_list action).
Proof.
  unfold scan_action, items_list, items_of. intros H.
  apply bind_ok in H. destruct H as [raw [E H]].
  apply bind_ok in H. destruct H as [items [E0 H]].
  rewrite E. cbn [bind]. rewrite E0. apply scan_items_exact. exact H.
Qed.

Lemma scan_actions_exact actions :
  forall queue queue',
  foldM scan_action actions queue = Ok queue' ->
  queue'
  = flat_map
      (fun action => flat_map (same_feed_of action) (rev (items_list action)))
      (rev actions)
    ++ queue
    ++ flat_map
         (fun action => flat_map (reply_of action) (items_list action))
         actions.
Proof.
  induction actions as [|action actions IH]; simpl; intros queue queue' H.
  - injection H as <-. rewrite app_nil_r. reflexivity.
  - apply bind_ok in H. destruct H as [queue1 [E H]].
    apply scan_action_exact in E. apply IH in H. subst queue1 queue'.
    rewrite flat_map_app. simpl. rewrite app_nil_r, <- !app_assoc.
    reflexivity.
Qed.

(** Lines 129-140 leave the old queue in the middle: what goes in front
    are the same-feed continuations of the response, the last item's
    first; what goes behind are its reply-expansion continuations, in the
    order the items are met. *)
Lemma collect_continuations_exact response queue queue' :
  collect_continuations response queue = Ok queue' ->
  queue' = inserted_front response ++ queue ++ appended_back response.
Proof. apply scan_actions_exact. Qed.

Lemma inserted_front_spec response ep :
  In ep (inserted_front response) <-> same_feed_continuation response ep.
Proof.
  unfold inserted_front, same_feed_continuation. rewrite in_flat_map. split.
  - intros [action [Ha H]]. apply in_rev in Ha. apply in_flat_map in H.
    destruct H as [item [Hi H]]. apply in_rev in Hi.
    unfold items_list in Hi.
    destruct (items_of action) as [items|e] eqn:Ei; [|contradiction].
    unfold same_feed_of in H.
    destruct (getitem action (lit "targetId")) as [target|e] eqn:Et;
      [|contradiction].
    destruct (existsb (is_str target) comment_sections) eqn:Es;
      [|contradiction].
    exists action, target, items, item. auto 10.
  - intros [action [target [items [item [Ha [Et [Es [Ei [Hi H]]]]]]]]].
    exists action. split; [apply in_rev in Ha; exact Ha|].
    apply in_flat_map. exists item. split.
    + apply in_rev in Hi. unfold items_list. rewrite Ei. exact Hi.
    + unfold same_feed_of. rewrite Et, Es. exact H.
Qed.

Lemma appended_back_spec response ep :
  In ep (appended_back response) <-> reply_continuation response ep.
Proof.
  unfold appended_back, reply_continuation. rewrite in_flat_map. split.
  - intros [action [Ha H]]. apply in_flat_map in H.
    destruct H as [item [Hi H]]. unfold items_list in Hi.
    destruct (items_of action) as [items|e] eqn:Ei; [|contradiction].
    unfold reply_of in H.
    destruct (getitem action (lit "targetId")) as [target|e] eqn:Et;
      [|contradiction].
    destruct target as [| | | target | |]; try contradiction.
    destruct (startswith target (lit "comment-replies-item")) eqn:Es;
      [|contradiction].
    destruct (contains item (lit "continuationItemRenderer"))
      as [[|]|e] eqn:Ec; try contradiction.
    destruct (search_dict item (lit "buttonRenderer")) as [|button others]
      eqn:Eb; [contradiction|].
    destruct (getitem button (lit "command")) as [command|e] eqn:Ek;
      [|contradiction].
    destruct H as [<-|[]].
    exists action, target, items, item, button. rewrite Eb. auto 10.
  - intros [action [target [items [item [button H]]]]].
    destruct H as [Ha [Et [Es [Ei [Hi [Ec [Eb Ek]]]]]]].
    exists action. split; [exact Ha|]. apply in_flat_map. exists item.
    split.
    + unfold items_list. rewrite Ei. exact Hi.
    + unfold reply_of. rewrite Et, Es, Ec.
      destruct (search_dict item (lit "buttonRenderer")) as [|b others];
        [discriminate Eb|].
      injection Eb as ->. rewrite Ek. left. reflexivity.
Qed.

Lemma side_payments_queue response st st1 :
  side_payments response st = Ok st1 -> continuations st1 = continuations st.
Proof.
  unfold side_payments.
  destruct (foldM add_payment _ []) as [[|p payments1]|e]; cbn [bind];
    [| |discriminate].
  - intros H. injection H as <-. reflexivity.
  - destruct (mapM _ _) as [view_models|e]; cbn [bind]; [|discriminate].
    destruct (foldM add_surface_key view_models []) as [sk|e]; cbn [bind];
      [|discriminate].
    destruct (foldM (resolve_payment sk) (p :: payments1) []) as [p2|e];
      cbn [bind]; [|discriminate].
    intros H. injection H as <-. reflexivity.
Qed.

Lemma side_toolbars_queue response st st1 :
  side_toolbars response st = Ok st1 -> continuations st1 = continuations st.
Proof.
  unfold side_toolbars.
  destruct (foldM add_toolbar_state _ []); cbn [bind]; [|discriminate].
  intros H. injection H as <-. reflexivity.
Qed.

Lemma reconcile_queue response rest st st1 :
  reconcile response rest st = Ok st1 ->
  collect_continuations response rest = Ok (continuations st1).
Proof.
  unfold reconcile.
  destruct (collect_continuations response rest) as [queue|e]; cbn [bind];
    [|discriminate].
  destruct (side_payments response _) as [st0|e] eqn:Hp; cbn [bind];
    [|discriminate].
  intros Ht. apply side_toolbars_queue in Ht.
  apply side_payments_queue in Hp. simpl in Hp. congruence.
Qed.

Lemma pass_continue_inv srv parse ytcfg sleep st w rs st1 w1 :
  pass srv parse ytcfg sleep st w = (rs, Continue st1, w1) ->
  exists continuation rest response w0,
    pop (continuations st) = Some (continuation, rest)
    /\ ajax srv continuation ytcfg w = (Ok response, w0)
    /\ reconcile response rest st = Ok st1
    /\ emit parse st1 (entities_of response) = (rs, None)
    /\ w1 = do_sleep w0 sleep.
Proof.
  unfold pass.
  destruct (pop (continuations st)) as [[continuation rest]|] eqn:Hpop;
    [|discriminate].
  destruct (ajax srv continuation ytcfg w) as [[response|e] w0] eqn:Hajax;
    [|discriminate].
  destruct (negb (truthy response)); [discriminate|].
  destruct (truthy _); [discriminate|].
  destruct (reconcile response rest st) as [st2|e] eqn:Hrec; [|discriminate].
  destruct (emit parse st2 (entities_of response)) as [rs2 [e|]] eqn:Hemit;
    [discriminate|].
  intros H. injection H as <- <- <-.
  exists continuation, rest, response, w0. auto.
Qed.

(** C1, the claim as stated fails: the first response of the example run
    carries the same-feed continuation [next-page] and the reply-expansion
    continuation [more-replies]; the same-feed continuation is inserted
    while the reply-expansion continuation is queued, and the loop then
    dequeues and requests [more-replies] first. *)
Lemma reply_expansion_dequeued_first :
  same_feed_continuation example_page (example_endpoint "next-page")
  /\ reply_continuation example_page (example_endpoint "more-replies")
  /\ foldM scan_action [reply_body] [] = Ok [example_endpoint "more-replies"]
  /\ foldM scan_action [reply_body; same_feed_body] []
     = Ok [example_endpoint "next-page"; example_endpoint "more-replies"]
  /\ actions_of example_page = [reply_body; same_feed_body]
  /\ continuations example_next
     = [example_endpoint "next-page"; example_endpoint "more-replies"]
  /\ pop (continuations example_next)
     = Some (example_endpoint "more-replies", [example_endpoint "next-page"])
  /\ tokens (snd example_run)
     = [jstr "recent"; jstr "more-replies"; jstr "next-page"].
Proof.
  split.
  { exists same_feed_body, (jstr "comments-section"), [next_page_item],
      next_page_item.
    repeat split; try reflexivity.
    - right. left. reflexivity.
    - left. reflexivity.
    - left. reflexivity. }
  split.
  { exists reply_body, (lit "comment-replies-item-c1"), [more_replies_item],
      more_replies_item, more_replies_button.
    repeat split; try reflexivity.
    - left. reflexivity.
    - left. reflexivity. }
  repeat split; reflexivity.
Qed.

(** C1, amended: the loop dequeues from the back of the continuation list.
    A pass that goes on has taken the last continuation queued, and after
    its response the list is: every same-feed continuation of the response
    and nothing else, inserted at the front; then what was queued; then
    every reply-expansion continuation of the response and nothing else,
    appended at the back.  So when the response carries a reply-expansion
    continuation, the next continuation dequeued is the last one appended,
    a reply-expansion continuation of that response, ahead of every
    same-feed continuation and of all that was queued before. *)
Theorem queue_discipline srv parse ytcfg sleep st w rs st1 w1 :
  pass srv parse ytcfg sleep st w = (rs, Continue st1, w1) ->
  exists continuation rest response w0,
    continuations st = rest ++ [continuation]
    /\ ajax srv continuation ytcfg w = (Ok response, w0)
    /\ continuations st1
       = inserted_front response ++ rest ++ appended_back response
    /\ (forall ep,
          In ep (inserted_front response)
          <-> same_feed_continuation response ep)
    /\ (forall ep,
          In ep (appended_back response) <-> reply_continuation response ep)
    /\ forall ep,
         reply_continuation response ep ->
         exists r back',
           appended_back response = back' ++ [r]
           /\ reply_continuation response r
           /\ pop (continuations st1)
              = Some (r, inserted_front response ++ rest ++ back').
Proof.
  intros H. apply pass_continue_inv in H.
  destruct H as [continuation [rest [response [w0 H]]]].
  destruct H as [Hpop [Hajax [Hrec _]]].
  apply pop_some_inv in Hpop. apply reconcile_queue in Hrec.
  apply collect_continuations_exact in Hrec.
  exists continuation, rest, response, w0.
  split; [exact Hpop|]. split; [exact Hajax|]. split; [exact Hrec|].
  split; [apply inserted_front_spec|]. split; [apply appended_back_spec|].
  intros ep Hep. apply appended_back_spec in Hep.
  destruct (appended_back response) as [|b back] eqn:Eb; [contradiction|].
  destruct (exists_last (l := b :: back) ltac:(discriminate))
    as [back' [r Eq]].
  exists r, back'. split; [exact Eq|]. split.
  - apply appended_back_spec. rewrite Eb, Eq. apply in_or_app. right.
    left. reflexivity.
  - rewrite Hrec, Eq, !app_assoc. apply pop_snoc.
Qed.

(** In the example the response brings one continuation of each kind. *)
Lemma example_page_continuations :
  inserted_front example_page = [example_endpoint "next-page"]
  /\ appended_back example_page = [example_endpoint "more-replies"].
Proof. split; reflexivity. Qed.

Lemma queue_discipline_witness :
  exists continuation rest response w0,
    continuations (first_locals "recent") = rest ++ [continuation]
    /\ ajax example_server continuation example_ytcfg world0
       = (Ok response, w0)
    /\ continuations example_next
       = inserted_front response ++ rest ++ appended_back response
    /\ (forall ep,
          In ep (inserted_front response)
          <-> same_feed_continuation response ep)
    /\ (forall ep,
          In ep (appended_back response) <-> reply_continuation response ep)
    /\ forall ep,
         reply_continuation response ep ->
         exists r back',
           appended_back response = back' ++ [r]
           /\ reply_continuation response r
           /\ pop (continuations example_next)
              = Some (r, inserted_front response ++ rest ++ back').
Proof.
  apply (queue_discipline example_server no_dates example_ytcfg (1 # 10)
           (first_locals "recent") world0 (fst (fst example_pass))
           example_next (snd example_pass)).
  reflexivity.
Defined.

(** ** ajax_request *)

Lemma after_attempts_step w req sleep p s :
  do_sleep (do_post (after_attempts w req sleep p s) req) sleep
  = after_attempts w req sleep (S p) (S s).
Proof.
  unfold do_sleep, do_post, after_attempts. simpl.
  rewrite <- !app_assoc.
  change (repeat req p ++ [req]) with (repeat req p ++ repeat req 1).
  change (repeat sleep s ++ [sleep]) with (repeat sleep s ++ repeat sleep 1).
  rewrite <- !repeat_app, !Nat.add_1_r. reflexivity.
Qed.

Lemma after_attempts_post w req sleep p s :
  do_post (after_attempts w req sleep p s) req
  = after_attempts w req sleep (S p) s.
Proof.
  unfold do_post, after_attempts. simpl. rewrite <- !app_assoc.
  change (repeat req p ++ [req]) with (repeat req p ++ repeat req 1).
  rewrite <- repeat_app, Nat.add_1_r. reflexivity.
Qed.

Lemma after_attempts_posts w req sleep p s :
  length (posts (after_attempts w req sleep p s))
  = (length (posts w) + p)%nat.
Proof. simpl. rewrite length_app, repeat_length. reflexivity. Qed.

Lemma after_attempts_zero w req sleep : after_attempts w req sleep 0 0 = w.
Proof.
  destruct w. unfold after_attempts. simpl. rewrite !app_nil_r. reflexivity.
Qed.

(** One round of the loop on a retried attempt. *)
Lemma ajax_attempts_round srv n ytcfg url context token sleep timeout w key :
  getitem ytcfg (lit "INNERTUBE_API_KEY") = Ok key ->
  retried (srv (length (posts w))) = true ->
  ajax_attempts srv (S n) ytcfg url context token sleep timeout w
  = ajax_attempts srv n ytcfg url context token sleep timeout
      (do_sleep (do_post w (mkRequest url key context token timeout)) sleep).
Proof.
  intros Hkey Hr. simpl. rewrite Hkey.
  destruct (srv (length (posts w))) as [status body| |]; simpl in Hr.
  - apply andb_true_iff in Hr. destruct Hr as [Hr H413].
    apply andb_true_iff in Hr. destruct Hr as [H200 H403].
    apply negb_true_iff in H200, H403, H413.
    rewrite H200, H403, H413. reflexivity.
  - reflexivity.
  - discriminate Hr.
Qed.

(** [k] retried attempts cost [k] POSTs and [k] sleeps. *)
Lemma ajax_attempts_retried srv ytcfg url context token sleep timeout key k :
  getitem ytcfg (lit "INNERTUBE_API_KEY") = Ok key ->
  forall n w p s,
  (forall i, (i < k)%nat ->
     retried (srv (length (posts w) + p + i)%nat) = true) ->
  ajax_attempts srv (k + n) ytcfg url context token sleep timeout
    (after_attempts w (mkRequest url key context token timeout) sleep p s)
  = ajax_attempts srv n ytcfg url context token sleep timeout
      (after_attempts w (mkRequest url key context token timeout) sleep
         (p + k) (s + k)).
Proof.
  intros Hkey. induction k as [|k IH]; intros n w p s Hr.
  - rewrite !Nat.add_0_r. reflexivity.
  - change (S k + n)%nat with (S (k + n)).
    rewrite (ajax_attempts_round _ _ _ _ _ _ _ _ _ key Hkey).
    + rewrite after_attempts_step, IH.
      * replace (S p + k)%nat with (p + S k)%nat by lia.
        replace (S s + k)%nat with (s + S k)%nat by lia. reflexivity.
      * intros i Hi.
        replace (length (posts w) + S p + i)%nat
          with (length (posts w) + p + S i)%nat by lia.
        apply Hr. lia.
    + rewrite after_attempts_posts.
      replace (length (posts w) + p)%nat
        with (length (posts w) + p + 0)%nat by lia.
      apply Hr. lia.
Qed.

(** A response that is [None] or empty ends the loop without an error. *)
Lemma pass_falsy srv parse ytcfg pause st w continuation rest response w1 :
  pop (continuations st) = Some (continuation, rest) ->
  ajax srv continuation ytcfg w = (Ok response, w1) ->
  truthy response = false ->
  pass srv parse ytcfg pause st w = ([], Stop Finished, w1).
Proof.
  intros Hpop Hajax Ht. unfold pass. rewrite Hpop, Hajax, Ht. reflexivity.
Qed.

(** A call only adds to the log of the POSTs and of the sleeps. *)
Lemma ajax_attempts_extends srv ytcfg url context token sleep timeout n :
  forall w, exists ps ss,
    snd (ajax_attempts srv n ytcfg url context token sleep timeout w)
    = mkWorld (posts w ++ ps) (sleeps w ++ ss).
Proof.
  induction n as [|n IH]; intros w; simpl.
  - exists [], []. destruct w. simpl. rewrite !app_nil_r. reflexivity.
  - assert (Hpost : forall r : result json, exists ps ss,
              snd (r, do_post w (mkRequest url
                     (match getitem ytcfg (lit "INNERTUBE_API_KEY") with
                      | Ok key => key
                      | Raise _ => JNull
                      end) context token timeout))
              = mkWorld (posts w ++ ps) (sleeps w ++ ss)).
    { intros r. eexists [_], []. simpl. rewrite app_nil_r. reflexivity. }
    destruct (getitem ytcfg (lit "INNERTUBE_API_KEY")) as [key|e].
    + assert (Hrec : exists ps ss,
                snd (ajax_attempts srv n ytcfg url context token sleep
                       timeout
                       (do_sleep (do_post w (mkRequest url key context token
                                               timeout)) sleep))
                = mkWorld (posts w ++ ps) (sleeps w ++ ss)).
      { destruct (IH (do_sleep (do_post w (mkRequest url key context token
                                             timeout)) sleep))
          as [ps [ss E]].
        rewrite E. simpl. rewrite <- !app_assoc. eauto. }
      destruct (srv (length (posts w))) as [status body| |].
      * destruct (status =? 200); [apply Hpost|].
        destruct ((status =? 403) || (status =? 413));
          [apply Hpost | exact Hrec].
      * exact Hrec.
      * apply Hpost.
    + exists [], []. destruct w. simpl. rewrite !app_nil_r. reflexivity.
Qed.

(** With an attempt left, the request is posted once more. *)
Lemma ajax_attempts_posts_again srv ytcfg url context token sleep timeout
    key n w :
  getitem ytcfg (lit "INNERTUBE_API_KEY") = Ok key ->
  exists ps ss,
    snd (ajax_attempts srv (S n) ytcfg url context token sleep timeout w)
    = mkWorld (posts w ++ mkRequest url key context token timeout :: ps)
        (sleeps w ++ ss).
Proof.
  intros Hkey. simpl. rewrite Hkey.
  set (req := mkRequest url key context token timeout).
  assert (Hpost : forall r : result json, exists ps ss,
            snd (r, do_post w req)
            = mkWorld (posts w ++ req :: ps) (sleeps w ++ ss)).
  { intros r. exists [], []. simpl. rewrite app_nil_r. reflexivity. }
  assert (Hrec : exists ps ss,
            snd (ajax_attempts srv n ytcfg url context token sleep timeout
                   (do_sleep (do_post w req) sleep))
            = mkWorld (posts w ++ req :: ps) (sleeps w ++ ss)).
  { destruct (ajax_attempts_extends srv ytcfg url context token sleep
                timeout n (do_sleep (do_post w req) sleep)) as [ps [ss E]].
    rewrite E. simpl. rewrite <- !app_assoc. simpl. eauto. }
  destruct (srv (length (posts w))) as [status body| |].
  - destruct (status =? 200); [apply Hpost|].
    destruct ((status =? 403) || (status =? 413));
      [apply Hpost | exact Hrec].
  - exact Hrec.
  - apply Hpost.
Qed.

(** C5: [ajax_request] on a request that can be built, after [k] attempts
    that were retried.  A 200 makes it return the parsed body at once; a
    403 or a 413 makes it return the empty dict at once, with no further
    POST; after a timeout, with an attempt left, it sleeps [sleep] seconds
    and posts again; when the [retries] attempts are used up it returns
    [None], having slept [sleep] seconds after each; and the pagination
    loop, which calls it with 5 retries, ends as a normal end of stream
    on these empty results. *)
Theorem ajax_request_policy srv endpoint ytcfg retries sleep timeout w
    url context token key k :
  ajax_prepare endpoint ytcfg = Ok (url, context, token) ->
  getitem ytcfg (lit "INNERTUBE_API_KEY") = Ok key ->
  (forall i, (i < k)%nat ->
     retried (srv (length (posts w) + i)%nat) = true) ->
  let req := mkRequest url key context token timeout in
  let call := ajax_request srv endpoint ytcfg retries sleep timeout w in
  ((k < Z.to_nat retries)%nat ->
   (forall body,
      srv (length (posts w) + k)%nat = Response 200 (Some body) ->
      call = (Ok body, after_attempts w req sleep (S k) k))
   /\ (forall status body,
         srv (length (posts w) + k)%nat = Response status body ->
         status = 403 \/ status = 413 ->
         call = (Ok (JObj []), after_attempts w req sleep (S k) k))
   /\ (srv (length (posts w) + k)%nat = Timeout ->
       (S k < Z.to_nat retries)%nat ->
       exists ps ss,
         snd call
         = mkWorld (posts w ++ repeat req (S k) ++ req :: ps)
             (sleeps w ++ repeat sleep (S k) ++ ss)))
  /\ (k = Z.to_nat retries ->
      call = (Ok JNull, after_attempts w req sleep k k))
  /\ (forall parse pause st rest n,
        pop (continuations st) = Some (endpoint, rest) ->
        retries = 5 -> sleep = 20%Q -> timeout = 60%Q ->
        (k = 5%nat ->
         paginate (S n) srv parse ytcfg pause st w
         = ([], Finished, after_attempts w req sleep 5 5))
        /\ ((k < 5)%nat ->
            forall status body,
            srv (length (posts w) + k)%nat = Response status body ->
            status = 403 \/ status = 413 ->
            paginate (S n) srv parse ytcfg pause st w
            = ([], Finished, after_attempts w req sleep (S k) k))).
Proof.
  intros Hprep Hkey Hr req call.
  assert (Hskip : forall n,
            ajax_attempts srv (k + n) ytcfg url context token sleep timeout w
            = ajax_attempts srv n ytcfg url context token sleep timeout
                (after_attempts w req sleep k k)).
  { intros n.
    rewrite <- (after_attempts_zero w req sleep) at 1.
    unfold req.
    rewrite (ajax_attempts_retried srv ytcfg url context token sleep timeout
               key k Hkey n w 0 0); [reflexivity|].
    intros i Hi. rewrite Nat.add_0_r. apply Hr. exact Hi. }
  assert (Hcall : forall n, Z.to_nat retries = (k + n)%nat ->
            call = ajax_attempts srv n ytcfg url context token sleep timeout
                     (after_attempts w req sleep k k)).
  { intros n Hn. unfold call, ajax_request. rewrite Hprep, Hn. apply Hskip. }
  assert (H200 : (k < Z.to_nat retries)%nat ->
            forall body,
            srv (length (posts w) + k)%nat = Response 200 (Some body) ->
            call = (Ok body, after_attempts w req sleep (S k) k)).
  { intros Hk body Hs.
    rewrite (Hcall (S (Z.to_nat retries - S k))) by lia.
    simpl. rewrite Hkey. fold req.
    rewrite length_app, repeat_length, Hs. simpl.
    fold (after_attempts w req sleep k k).
    rewrite after_attempts_post. reflexivity. }
  assert (H403 : (k < Z.to_nat retries)%nat ->
            forall status body,
            srv (length (posts w) + k)%nat = Response status body ->
            status = 403 \/ status = 413 ->
            call = (Ok (JObj []), after_attempts w req sleep (S k) k)).
  { intros Hk status body Hs Hst.
    rewrite (Hcall (S (Z.to_nat retries - S k))) by lia.
    simpl. rewrite Hkey. fold req.
    rewrite length_app, repeat_length, Hs.
    fold (after_attempts w req sleep k k). rewrite after_attempts_post.
    destruct Hst as [-> | ->]; reflexivity. }
  assert (Hnone : k = Z.to_nat retries ->
            call = (Ok JNull, after_attempts w req sleep k k)).
  { intros Hk. rewrite (Hcall 0%nat) by lia. reflexivity. }
  split; [|split].
  - intros Hk. split; [exact (H200 Hk)|]. split; [exact (H403 Hk)|].
    intros Hs Hk'.
    rewrite (Hcall (S (S (Z.to_nat retries - S (S k))))) by lia.
    rewrite (ajax_attempts_round _ _ _ _ _ _ _ _ _ key Hkey).
    + fold req. rewrite after_attempts_step.
      destruct (ajax_attempts_posts_again srv ytcfg url context token sleep
                  timeout key (Z.to_nat retries - S (S k))
                  (after_attempts w req sleep (S k) (S k)) Hkey)
        as [ps [ss E]].
      fold req in E. rewrite E. exists ps, ss. simpl.
      rewrite <- !app_assoc. reflexivity.
    + rewrite after_attempts_posts, Hs. reflexivity.
  - exact Hnone.
  - intros parse pause st rest n Hpop -> -> ->.
    split.
    + intros ->. simpl.
      rewrite (pass_falsy srv parse ytcfg pause st w endpoint rest JNull
                 (after_attempts w req 20 5 5) Hpop); [reflexivity| |].
      * apply Hnone. reflexivity.
      * reflexivity.
    + intros Hk status body Hs Hst. simpl.
      rewrite (pass_falsy srv parse ytcfg pause st w endpoint rest (JObj [])
                 (after_attempts w req 20 (S k) k) Hpop); [reflexivity| |].
      * apply (H403 ltac:(simpl; lia) status body Hs Hst).
      * reflexivity.
Qed.

Lemma ajax_request_policy_witness :
  ajax_request timeout_server (example_endpoint "recent") example_ytcfg
    5 20 60 world0
  = (Ok JNull, after_attempts world0 (example_request "recent") 20 5 5)
  /\ paginate 1 timeout_server no_dates example_ytcfg (1 # 10)
       (first_locals "recent") world0
     = ([], Finished, after_attempts world0 (example_request "recent") 20 5 5).
Proof.
  destruct (ajax_request_policy timeout_server (example_endpoint "recent")
              example_ytcfg 5 20 60 world0
              (lit "https://www.youtube.com/youtubei/v1/next")
              (JObj [(lit "client", JObj [(lit "hl", jstr "en")])])
              (jstr "recent") (jstr "key0") 5 eq_refl eq_refl
              (fun i _ => eq_refl)) as [_ [Hnone Hloop]].
  split.
  - apply Hnone. reflexivity.
  - apply (Hloop no_dates (1 # 10) (first_locals "recent") [] 0%nat);
      reflexivity.
Defined.

(** The second page is refused with a 403: the records of the first page
    are yielded and the generator ends normally, after one more POST and
    no sleep of [ajax_request]. *)
Lemma ajax_request_forbidden_example :
  let '(rs, e, w) :=
    get_comments_from_url 10 forbidden_server no_dates example_ytcfg
      example_data 1 (1 # 10) world0 in
  map cid rs = [jstr "c1"; jstr "c1.r1"]
  /\ e = Finished
  /\ tokens w = [jstr "recent"; jstr "more-replies"]
  /\ sleeps w = [1 # 10].
Proof. vm_compute. repeat split. Qed.

(** ** Sort resolution *)

(** With an index that is not negative, the check of line 114 is the
    range check: the queue is seeded with the endpoint of the entry, or
    the [RuntimeError] is raised. *)
Lemma seed_queue_in_range entries sort_by :
  0 <= sort_by ->
  seed_queue (JArr entries) sort_by =
  match nth_error entries (Z.to_nat sort_by) with
  | Some entry =>
      endpoint <- getitem entry (lit "serviceEndpoint") ;; Ok [endpoint]
  | None => Raise (RuntimeError cannot_sort)
  end.
Proof.
  intros Hpos. unfold seed_queue.
  destruct entries as [|entry entries]; simpl truthy; cbn [negb].
  - destruct (Z.to_nat sort_by); reflexivity.
  - cbn [len bind]. remember (entry :: entries) as l.
    destruct (Z.of_nat (length l) <=? sort_by) eqn:Hle.
    + apply Z.leb_le in Hle.
      destruct (nth_error l (Z.to_nat sort_by)) eqn:Hn; [|reflexivity].
      assert (Z.to_nat sort_by < length l)%nat
        by (apply nth_error_Some; congruence).
      lia.
    + apply Z.leb_gt in Hle. unfold getitem_int.
      replace (sort_by <? - Z.of_nat (length l)) with false
        by (symmetry; apply Z.ltb_ge; lia).
      replace (Z.of_nat (length l) <=? sort_by) with false
        by (symmetry; apply Z.leb_gt; lia).
      replace (sort_by <? 0) with false by (symmetry; apply Z.ltb_ge; lia).
      cbn [orb bind].
      destruct (nth_error l (Z.to_nat sort_by)) eqn:Hn; [reflexivity|].
      apply nth_error_None in Hn. lia.
Qed.

(** A negative index down to minus the length passes the check of line
    114 and selects an entry counted from the end. *)
Lemma seed_queue_negative entries sort_by :
  - Z.of_nat (length entries) <= sort_by < 0 ->
  seed_queue (JArr entries) sort_by =
  match nth_error entries (Z.to_nat (sort_by + Z.of_nat (length entries)))
  with
  | Some entry =>
      endpoint <- getitem entry (lit "serviceEndpoint") ;; Ok [endpoint]
  | None => Raise IndexError
  end.
Proof.
  intros [Hlo Hhi]. unfold seed_queue.
  destruct entries as [|entry entries]; [simpl in Hlo; lia|].
  simpl truthy. cbn [negb len bind]. remember (entry :: entries) as l.
  replace (Z.of_nat (length l) <=? sort_by) with false
    by (symmetry; apply Z.leb_gt; lia).
  unfold getitem_int.
  replace (sort_by <? - Z.of_nat (length l)) with false
    by (symmetry; apply Z.ltb_ge; lia).
  replace (Z.of_nat (length l) <=? sort_by) with false
    by (symmetry; apply Z.leb_gt; lia).
  replace (sort_by <? 0) with true by (symmetry; apply Z.ltb_lt; lia).
  cbn [orb bind].
  destruct (nth_error l (Z.to_nat (sort_by + Z.of_nat (length l))));
    reflexivity.
Qed.

(** A failure of the sort resolution ends the generator by raising. *)
Lemma sort_failure_raises fuel srv parse ytcfg data sort_by sleep w e w1 :
  truthy ytcfg = true ->
  truthy (next_or
            (search_dict
               (next_or (search_dict data (lit "itemSectionRenderer")) JNull)
               (lit "continuationItemRenderer")) JNull) = true ->
  resolve_sort srv data ytcfg sort_by w = (Raise e, w1) ->
  get_comments_from_url fuel srv parse ytcfg data sort_by sleep w
  = ([], Raised e, w1).
Proof.
  intros Hcfg Hr Hsort. unfold get_comments_from_url. rewrite Hcfg. simpl.
  destruct (truthy (next_or (search_dict data (lit "itemSectionRenderer"))
                      JNull)) eqn:Hs.
  - rewrite Hr. simpl. rewrite Hsort. reflexivity.
  - rewrite (falsy_no_entities _ _ Hs) in Hr. discriminate Hr.
Qed.

(** C6, where the code departs from the claim: the sort index -1 is out of
    the range of the two entries of the menu, and the sort resolution does
    not fail; line 114 checks the upper bound only, and [sort_menu[-1]]
    is the last entry.  The queue is seeded with the endpoint of the entry
    [recent] and the run proceeds as with the index 1. *)
Theorem negative_sort_index_accepted :
  sort_menu_of example_data = Ok example_menu
  /\ seed_queue example_menu (-1) = Ok [example_endpoint "recent"]
  /\ resolve_sort example_server example_data example_ytcfg (-1) world0
     = (Ok [example_endpoint "recent"], world0)
  /\ get_comments_from_url 10 example_server no_dates example_ytcfg
       example_data (-1) (1 # 10) world0
     = example_run
  /\ snd (fst example_run) = Finished
  /\ seed_queue example_menu 2 = Raise (RuntimeError cannot_sort)
  /\ seed_queue example_menu (-3) = Raise IndexError.
Proof. repeat split; reflexivity. Qed.

(** ** download_comments *)










(** Scenario C: a feed of a hundred records and a limit of 5. *)
Lemma limit_stops_download_example :
  match download_comments 100 example_dumps hundred_feed (Some 5) false with
  | Some (d, res) =>
      map cid (written d) = [JNum 0; JNum 1; JNum 2; JNum 3; JNum 4]
      /\ pulls d = 5%nat /\ res = Ok 5
  | None => False
  end.
Proof. vm_compute. repeat split. Qed.



(** * Further properties *)

(** ** search_dict is a depth-first search *)

Lemma search_loop_scalar k fuel stack j :
  (forall l, j <> JArr l) -> (forall kv, j <> JObj kv) ->
  search_loop (S fuel) (stack ++ [j]) k = search_loop fuel stack k.
Proof.
  intros Ha Ho. simpl. rewrite pop_snoc.
  destruct j; try reflexivity.
  - destruct (Ha l eq_refl).
  - destruct (Ho kv eq_refl).
Qed.

(** With fuel for the stack, the loop yields the results of its trees one
    after the other, from the top of the stack down. *)
Lemma search_loop_dfs k n :
  forall fuel stack,
  (fuel <= n)%nat -> (stack_weight stack <= fuel)%nat ->
  search_loop fuel stack k = Some (search_all stack k).
Proof.
  induction n as [|n IH]; intros fuel stack Hn Hw.
  - destruct stack as [|j stack].
    + destruct fuel; reflexivity.
    + unfold stack_weight in Hw. simpl in Hw. pose proof (weight_pos j). lia.
  - destruct (pop stack) as [[cur st]|] eqn:Hpop.
    + apply pop_some_inv in Hpop. subst stack.
      rewrite stack_weight_app in Hw. unfold stack_weight at 2 in Hw.
      simpl in Hw. rewrite Nat.add_0_r in Hw.
      destruct fuel as [|fuel]; [pose proof (weight_pos cur); lia|].
      unfold search_all. rewrite rev_app_distr. simpl rev. simpl flat_map.
      fold (search_all st k).
      assert (Hscalar : (forall l, cur <> JArr l) ->
                (forall kv, cur <> JObj kv) ->
                search_loop (S fuel) (st ++ [cur]) k
                = Some (search_dict cur k ++ search_all st k)).
      { intros Ha Ho. rewrite (search_loop_scalar k fuel st cur Ha Ho).
        rewrite (IH fuel st); [|lia|pose proof (weight_pos cur); lia].
        destruct cur; try reflexivity.
        - destruct (Ha l eq_refl).
        - destruct (Ho kv eq_refl). }
      destruct cur as [| b | z | s | l | kv];
        try (apply Hscalar; intros; discriminate).
      * simpl in Hw. simpl search_loop. rewrite pop_snoc.
        rewrite (IH fuel (st ++ l));
          [|lia|rewrite stack_weight_app; unfold stack_weight at 2; lia].
        unfold search_dict. simpl weight. simpl search_loop.
        rewrite (IH (list_sum (map weight l)) l);
          [|lia|unfold stack_weight; lia].
        unfold search_all. rewrite rev_app_distr, flat_map_app. reflexivity.
      * simpl in Hw. simpl search_loop. rewrite pop_snoc.
        rewrite scan_items_spec. fold (other_values k kv).
        pose proof (weight_filter_le (fun p => negb (matching k p)) kv)
          as Hle. fold (other_values k kv) in Hle.
        rewrite (IH fuel (st ++ other_values k kv));
          [|lia|rewrite stack_weight_app; lia].
        unfold search_dict. simpl weight. simpl search_loop.
        rewrite scan_items_spec. fold (other_values k kv). simpl app.
        rewrite (IH (list_sum (map (fun p => weight (snd p)) kv))
                   (other_values k kv)); [|lia|lia].
        simpl option_map. unfold search_all.
        rewrite rev_app_distr, flat_map_app, <- app_assoc. reflexivity.
    + apply pop_nil_inv in Hpop. subst stack. destruct fuel; reflexivity.
Qed.

Lemma search_dict_list k l :
  search_dict (JArr l) k = flat_map (fun j => search_dict j k) (rev l).
Proof.
  unfold search_dict at 1. simpl weight. simpl search_loop.
  rewrite (search_loop_dfs k (list_sum (map weight l))
             (list_sum (map weight l)) l); [reflexivity|lia|].
  unfold stack_weight. lia.
Qed.

Lemma search_dict_dict k kv :
  search_dict (JObj kv) k
  = map snd (filter (matching k) kv)
    ++ flat_map (fun j => search_dict j k) (rev (other_values k kv)).
Proof.
  unfold search_dict at 1. simpl weight. simpl search_loop.
  rewrite scan_items_spec. fold (other_values k kv). simpl app.
  rewrite (search_loop_dfs k (list_sum (map (fun p => weight (snd p)) kv))
             (list_sum (map (fun p => weight (snd p)) kv))
             (other_values k kv)); [reflexivity|lia|].
  apply (weight_filter_le (fun p => negb (matching k p)) kv).
Qed.

(** X1: [search_dict] is a depth-first search from the last item to the
    first.  A scalar yields nothing; a list yields the results of its
    items, the last item first; a dict yields the values under the key, in
    the order of the dict, and then the results of its other values, the
    last one first. *)
Theorem search_dict_depth_first (k : pystr) :
  search_dict JNull k = []
  /\ (forall b, search_dict (JBool b) k = [])
  /\ (forall z, search_dict (JNum z) k = [])
  /\ (forall s, search_dict (JStr s) k = [])
  /\ (forall l,
        search_dict (JArr l) k
        = flat_map (fun j => search_dict j k) (rev l))
  /\ (forall kv,
        search_dict (JObj kv) k
        = map snd (filter (matching k) kv)
          ++ flat_map (fun j => search_dict j k) (rev (other_values k kv))).
Proof.
  repeat split; try reflexivity.
  - apply search_dict_list.
  - apply search_dict_dict.
Qed.

Lemma lookup_filter kv k v :
  lookup kv k = Some v ->
  exists rest, map snd (filter (matching k) kv) = v :: rest.
Proof.
  induction kv as [|[k' v'] kv IH]; simpl; [discriminate|].
  unfold matching at 1. simpl. destruct (pystr_eqb k' k).
  - intros H. injection H as <-. simpl. eauto.
  - exact IH.
Qed.

Lemma lookup_none_filter kv k :
  lookup kv k = None -> filter (matching k) kv = [].
Proof.
  induction kv as [|[k' v'] kv IH]; simpl; [reflexivity|].
  unfold matching at 1. simpl. destruct (pystr_eqb k' k);
    [discriminate | exact IH].
Qed.

(** X2: a key of the dict itself is found before any nested one:
    [next(search_dict(d, k), default)] is [d[k]] when [k] is a key of [d],
    whatever [d] holds deeper; when it is not, only the values of [d] are
    searched. *)
Theorem search_dict_direct_key_first kv k :
  (forall v d, lookup kv k = Some v ->
     next_or (search_dict (JObj kv) k) d = v)
  /\ (lookup kv k = None ->
      search_dict (JObj kv) k
      = flat_map (fun j => search_dict j k) (rev (map snd kv))).
Proof.
  pose proof (search_dict_dict k) as Hobj.
  split.
  - intros v d Hl. rewrite Hobj.
    destruct (lookup_filter kv k v Hl) as [rest E]. rewrite E. reflexivity.
  - intros Hl. rewrite Hobj, (lookup_none_filter kv k Hl). simpl.
    unfold other_values. f_equal. f_equal. f_equal.
    clear Hobj. induction kv as [|[k' v'] kv IH]; [reflexivity|].
    simpl in Hl. simpl. unfold matching at 1. simpl.
    destruct (pystr_eqb k' k); [discriminate|]. simpl. f_equal.
    apply IH. exact Hl.
Qed.

Lemma search_dict_direct_key_first_witness :
  next_or (search_dict nested_view_model (lit "commentViewModel")) JNull
  = JObj [(lit "commentViewModel", inner_view_model)]
  /\ search_dict (JObj [(lit "a", JArr [JObj [(lit "b", JNum 1)];
                                         JObj [(lit "b", JNum 2)]])])
       (lit "b")
     = [JNum 2; JNum 1].
Proof.
  split.
  - apply (search_dict_direct_key_first
             [(lit "commentViewModel",
               JObj [(lit "commentViewModel", inner_view_model)])]
             (lit "commentViewModel")).
    reflexivity.
  - destruct (search_dict_direct_key_first
                [(lit "a", JArr [JObj [(lit "b", JNum 1)];
                                 JObj [(lit "b", JNum 2)]])] (lit "b"))
      as [_ H].
    rewrite (H eq_refl). reflexivity.
Defined.

(** ** The reply flag *)

Lemma startswith_iff s p : startswith s p = true <-> exists b, s = p ++ b.
Proof.
  revert s. induction p as [|x p IH]; intros s.
  - split.
    + intros _. exists s. reflexivity.
    + intros _. destruct s; reflexivity.
  - destruct s as [|y s]; simpl.
    + split; [discriminate|]. intros [b H]. discriminate H.
    + rewrite andb_true_iff, N.eqb_eq, IH. split.
      * intros [-> [b ->]]. eauto.
      * intros [b H]. injection H as -> ->. eauto.
Qed.

(** [p in s] holds exactly when [s] is [a + p + b] for some [a] and [b]. *)
Lemma substring_iff p s :
  substring p s = true <-> exists a b, s = a ++ p ++ b.
Proof.
  induction s as [|c s IH].
  - replace (substring p []) with (startswith [] p)
      by (destruct p; reflexivity).
    rewrite startswith_iff. split.
    + intros [b H]. exists [], b. exact H.
    + intros [a [b H]]. destruct a; [eauto|discriminate H].
  - change (substring p (c :: s))
      with (startswith (c :: s) p || substring p s).
    rewrite orb_true_iff, startswith_iff, IH. split.
    + intros [[b H] | [a [b H]]].
      * exists [], b. exact H.
      * exists (c :: a), b. rewrite H. reflexivity.
    + intros [[|c' a] [b H]].
      * left. eauto.
      * right. injection H as _ H. eauto.
Qed.

(** X3: the reply flag of every record yielded is ['.' in cid]; for a
    comment id that is a string it is true exactly when the id has a dot,
    that is when it is a parent id, a dot and a rest. *)
Theorem reply_flag fuel srv parse ytcfg data sort_by sleep w :
  Forall
    (fun r =>
       exists response comment st properties,
         emitted_from parse response comment st r
         /\ getitem comment (lit "properties") = Ok properties
         /\ getitem properties (lit "commentId") = Ok (cid r)
         /\ contains (cid r) (lit ".") = Ok (reply r)
         /\ forall s, cid r = JStr s ->
              (reply r = true <-> In 46%N s)
              /\ (reply r = true <->
                  exists parent rest, s = parent ++ lit "." ++ rest))
    (fst (fst (get_comments_from_url fuel srv parse ytcfg data sort_by
                 sleep w))).
Proof.
  apply Forall_forall. intros r Hin.
  destruct (get_comments_emitted _ _ _ _ _ _ _ _ _ Hin)
    as [response [comment [st Hem]]].
  pose proof Hem as [_ [_ Hb]].
  destruct (build_record_inv _ _ _ _ Hb)
    as [properties [toolbar [state_key [toolbar_state [likes H]]]]].
  destruct H as [Hp [Hcid [_ [_ [_ [_ [_ [_ [Hreply _]]]]]]]]].
  exists response, comment, st, properties.
  repeat (split; [assumption|]).
  intros s Hs. rewrite Hs in Hreply. simpl in Hreply.
  injection Hreply as <-.
  assert (Hsub : substring (lit ".") s = true <->
                 exists parent rest, s = parent ++ lit "." ++ rest)
    by apply substring_iff.
  split; [|exact Hsub].
  rewrite Hsub. split.
  - intros [parent [rest ->]]. apply in_or_app. right. left. reflexivity.
  - intros Hdot. apply in_split in Hdot. destruct Hdot as [a [b ->]].
    exists a, b. reflexivity.
Qed.

Lemma reply_flag_witness :
  Forall
    (fun r =>
       exists response comment st properties,
         emitted_from no_dates response comment st r
         /\ getitem comment (lit "properties") = Ok properties
         /\ getitem properties (lit "commentId") = Ok (cid r)
         /\ contains (cid r) (lit ".") = Ok (reply r)
         /\ forall s, cid r = JStr s ->
              (reply r = true <-> In 46%N s)
              /\ (reply r = true <->
                  exists parent rest, s = parent ++ lit "." ++ rest))
    example_records
  /\ map reply example_records = [false; true].
Proof.
  split; [|reflexivity].
  exact (reply_flag 10 example_server no_dates example_ytcfg example_data 1
           (1 # 10) world0).
Defined.

(** ** The date parser is best effort *)

Ltac step_bind :=
  match goal with
  | |- context [bind ?m _] =>
      destruct m as [?|?]; cbn [bind]; [|reflexivity]
  end.

Lemma build_record_parser parse parse' st comment :
  match build_record parse st comment, build_record parse' st comment with
  | Ok r, Ok r' =>
      same_but_time r r'
      /\ time_parsed r = parse_time parse (time r)
      /\ time_parsed r' = parse_time parse' (time r')
  | Raise e, Raise e' => e = e'
  | _, _ => False
  end.
Proof.
  unfold build_record. repeat step_bind.
  unfold same_but_time. simpl. repeat split.
Qed.

Lemma emit_parser parse parse' st comments :
  Forall2 same_but_time (fst (emit parse st comments))
    (fst (emit parse' st comments))
  /\ snd (emit parse st comments) = snd (emit parse' st comments).
Proof.
  induction comments as [|c comments [IHr IHe]]; simpl.
  - split; [constructor | reflexivity].
  - pose proof (build_record_parser parse parse' st c) as H.
    destruct (build_record parse st c) as [r|e],
             (build_record parse' st c) as [r'|e']; try contradiction.
    + destruct (emit parse st comments) as [rs e],
               (emit parse' st comments) as [rs' e']. simpl in *.
      split; [constructor; [apply H | exact IHr] | exact IHe].
    + simpl. split; [constructor | congruence].
Qed.

Lemma pass_parser srv parse parse' ytcfg sleep st w :
  match pass srv parse ytcfg sleep st w, pass srv parse' ytcfg sleep st w
  with
  | (rs, o, w1), (rs', o', w1') =>
      Forall2 same_but_time rs rs' /\ o = o' /\ w1 = w1'
  end.
Proof.
  unfold pass.
  destruct (pop (continuations st)) as [[continuation rest]|];
    [|repeat split; constructor].
  destruct (ajax srv continuation ytcfg w) as [[response|e] w1];
    [|repeat split; constructor].
  destruct (negb (truthy response)); [repeat split; constructor|].
  destruct (truthy _); [repeat split; constructor|].
  destruct (reconcile response rest st) as [st1|e];
    [|repeat split; constructor].
  destruct (emit_parser parse parse' st1 (entities_of response)) as [Hr He].
  destruct (emit parse st1 (entities_of response)) as [rs e],
           (emit parse' st1 (entities_of response)) as [rs' e'].
  simpl in Hr, He. subst e'. destruct e; repeat split; exact Hr.
Qed.

Lemma paginate_parser fuel srv parse parse' ytcfg sleep :
  forall st w,
  Forall2 same_but_time
    (fst (fst (paginate fuel srv parse ytcfg sleep st w)))
    (fst (fst (paginate fuel srv parse' ytcfg sleep st w)))
  /\ snd (fst (paginate fuel srv parse ytcfg sleep st w))
     = snd (fst (paginate fuel srv parse' ytcfg sleep st w))
  /\ snd (paginate fuel srv parse ytcfg sleep st w)
     = snd (paginate fuel srv parse' ytcfg sleep st w).
Proof.
  induction fuel as [|n IH]; intros st w; simpl.
  - repeat split. constructor.
  - pose proof (pass_parser srv parse parse' ytcfg sleep st w) as H.
    destruct (pass srv parse ytcfg sleep st w) as [[rs o] w1],
             (pass srv parse' ytcfg sleep st w) as [[rs' o'] w1'].
    destruct H as [Hr [<- <-]]. destruct o as [st1|e].
    + destruct (IH st1 w1) as [IHr [IHe IHw]].
      destruct (paginate n srv parse ytcfg sleep st1 w1) as [[rs2 e2] w2],
               (paginate n srv parse' ytcfg sleep st1 w1)
                 as [[rs2' e2'] w2'].
      simpl in *. repeat split; try assumption.
      apply Forall2_app; assumption.
    + simpl. repeat split. exact Hr.
Qed.

(** X4: the date parser decides [time_parsed] and nothing else.  Run with
    two date parsers, the generator ends the same way after the same
    requests and sleeps, and yields as many records, equal on every key
    but [time_parsed]; a parse failure never costs a record. *)
Theorem date_parser_best_effort fuel srv parse parse' ytcfg data sort_by
    sleep w :
  let run := get_comments_from_url fuel srv parse ytcfg data sort_by sleep w
  in
  let run' := get_comments_from_url fuel srv parse' ytcfg data sort_by sleep w
  in
  Forall2 same_but_time (fst (fst run)) (fst (fst run'))
  /\ snd (fst run) = snd (fst run')
  /\ snd run = snd run'
  /\ Forall (fun r => time_parsed r = parse_time parse (time r))
       (fst (fst run)).
Proof.
  assert (Htime : Forall
            (fun r => time_parsed r = parse_time parse (time r))
            (fst (fst (get_comments_from_url fuel srv parse ytcfg data
                         sort_by sleep w)))).
  { apply Forall_forall. intros r Hin.
    destruct (get_comments_emitted _ _ _ _ _ _ _ _ _ Hin)
      as [response [comment [st [_ [_ Hb]]]]].
    pose proof (build_record_parser parse parse st comment) as H.
    rewrite Hb in H. apply H. }
  cbv zeta. split; [|split; [|split; [|exact Htime]]];
    clear Htime; unfold get_comments_from_url;
    (destruct (negb (truthy ytcfg)); [try reflexivity; constructor|]);
    match goal with
    | |- context [if ?b then _ else _] =>
        destruct b; [try reflexivity; constructor|]
    end;
    (destruct (resolve_sort srv data ytcfg sort_by w) as [[queue|e] w1];
       [|try reflexivity; constructor]);
    apply (paginate_parser fuel srv parse parse' ytcfg sleep).
Qed.

Lemma date_parser_best_effort_witness :
  Forall2 same_but_time example_records
    (fst (fst (get_comments_from_url 10 example_server epoch_dates
                 example_ytcfg example_data 1 (1 # 10) world0)))
  /\ map time_parsed
       (fst (fst (get_comments_from_url 10 example_server epoch_dates
                    example_ytcfg example_data 1 (1 # 10) world0)))
     = [Some 0%Q; Some 0%Q]
  /\ map time_parsed example_records = [None; None].
Proof.
  split; [|split; reflexivity].
  apply (date_parser_best_effort 10 example_server no_dates epoch_dates
           example_ytcfg example_data 1 (1 # 10) world0).
Defined.

(** ** The records of a response *)

Lemma emit_all parse st comments rs :
  emit parse st comments = (rs, None) ->
  Forall2 (fun c r => build_record parse st c = Ok r) comments rs.
Proof.
  revert rs. induction comments as [|c comments IH]; simpl; intros rs H.
  - injection H as <-. constructor.
  - destruct (build_record parse st c) as [r|e] eqn:Hb; [|discriminate].
    destruct (emit parse st comments) as [rs0 e] eqn:He.
    injection H as <- ->. constructor; [exact Hb | apply IH; reflexivity].
Qed.

(** X5: a pass that goes on to the next continuation has yielded exactly
    one record for each comment entity of its response, in the reverse of
    the order in which [search_dict] finds the entities, each with the
    comment id of its entity; then it has slept [sleep] seconds. *)
Theorem records_in_reverse_discovery_order srv parse ytcfg sleep st w rs
    st1 w1 :
  pass srv parse ytcfg sleep st w = (rs, Continue st1, w1) ->
  exists continuation rest response w0,
    pop (continuations st) = Some (continuation, rest)
    /\ ajax srv continuation ytcfg w = (Ok response, w0)
    /\ w1 = do_sleep w0 sleep
    /\ length rs
       = length (search_dict response (lit "commentEntityPayload"))
    /\ Forall2
         (fun comment r =>
            build_record parse st1 comment = Ok r
            /\ exists properties,
                 getitem comment (lit "properties") = Ok properties
                 /\ getitem properties (lit "commentId") = Ok (cid r))
         (rev (search_dict response (lit "commentEntityPayload"))) rs.
Proof.
  intros H. apply pass_continue_inv in H.
  destruct H as [continuation [rest [response [w0 H]]]].
  destruct H as [Hpop [Hajax [_ [Hemit Hw]]]].
  exists continuation, rest, response, w0.
  repeat (split; [assumption|]).
  apply emit_all in Hemit. unfold entities_of in Hemit. split.
  - apply Forall2_length in Hemit. rewrite length_rev in Hemit.
    symmetry. exact Hemit.
  - eapply Forall2_impl; [|exact Hemit]. intros c r Hb. split; [exact Hb|].
    destruct (build_record_inv _ _ _ _ Hb)
      as [properties [toolbar [state_key [toolbar_state [likes H]]]]].
    exists properties. split; apply H.
Qed.

Lemma records_in_reverse_discovery_order_witness :
  exists continuation rest response w0,
    pop (continuations (first_locals "recent")) = Some (continuation, rest)
    /\ ajax example_server continuation example_ytcfg world0
       = (Ok response, w0)
    /\ snd example_pass = do_sleep w0 (1 # 10)
    /\ length example_records
       = length (search_dict response (lit "commentEntityPayload"))
    /\ Forall2
         (fun comment r =>
            build_record no_dates example_next comment = Ok r
            /\ exists properties,
                 getitem comment (lit "properties") = Ok properties
                 /\ getitem properties (lit "commentId") = Ok (cid r))
         (rev (search_dict response (lit "commentEntityPayload")))
         example_records.
Proof.
  apply (records_in_reverse_discovery_order example_server no_dates
           example_ytcfg (1 # 10) (first_locals "recent") world0
           example_records example_next (snd example_pass)).
  reflexivity.
Defined.

(** ** The effects of ajax_request *)

Lemma after_attempts_shift w req sleep p s :
  after_attempts (do_sleep (do_post w req) sleep) req sleep p s
  = after_attempts w req sleep (S p) (S s).
Proof.
  unfold after_attempts, do_sleep, do_post. simpl.
  rewrite <- !app_assoc. reflexivity.
Qed.

Lemma do_post_after w req sleep :
  do_post w req = after_attempts w req sleep 1 0.
Proof.
  unfold do_post, after_attempts. simpl. rewrite app_nil_r. reflexivity.
Qed.

Lemma ajax_attempts_effects srv ytcfg url context token sleep timeout key n :
  getitem ytcfg (lit "INNERTUBE_API_KEY") = Ok key ->
  forall w, exists p s,
    snd (ajax_attempts srv n ytcfg url context token sleep timeout w)
    = after_attempts w (mkRequest url key context token timeout) sleep p s
    /\ (s <= p <= S s)%nat /\ (p <= n)%nat.
Proof.
  intros Hkey. set (req := mkRequest url key context token timeout).
  induction n as [|n IH]; intros w.
  - exists 0%nat, 0%nat. simpl. rewrite after_attempts_zero.
    repeat split; lia.
  - simpl. rewrite Hkey. fold req.
    assert (Hone : forall r : result json, exists p s,
              snd (r, do_post w req) = after_attempts w req sleep p s
              /\ (s <= p <= S s)%nat /\ (p <= S n)%nat).
    { intros r. exists 1%nat, 0%nat. simpl.
      rewrite (do_post_after w req sleep). repeat split; lia. }
    assert (Hmore : exists p s,
              snd (ajax_attempts srv n ytcfg url context token sleep timeout
                     (do_sleep (do_post w req) sleep))
              = after_attempts w req sleep p s
              /\ (s <= p <= S s)%nat /\ (p <= S n)%nat).
    { destruct (IH (do_sleep (do_post w req) sleep)) as [p [s [E [Hs Hn]]]].
      exists (S p), (S s). rewrite E, after_attempts_shift.
      repeat split; lia. }
    destruct (srv (length (posts w))) as [status body| |].
    + destruct (status =? 200); [apply Hone|].
      destruct ((status =? 403) || (status =? 413));
        [apply Hone | exact Hmore].
    + exact Hmore.
    + apply Hone.
Qed.

Lemma ajax_attempts_no_key srv ytcfg url context token sleep timeout e n w :
  getitem ytcfg (lit "INNERTUBE_API_KEY") = Raise e ->
  snd (ajax_attempts srv n ytcfg url context token sleep timeout w) = w.
Proof.
  intros Hkey. destruct n; simpl; [reflexivity|]. rewrite Hkey. reflexivity.
Qed.

(** X6: whatever the platform answers, one call of [ajax_request] posts at
    most [retries] times, each time the same request built from the
    endpoint and the configuration, and sleeps [sleep] seconds only after
    a POST: as often as it posts, or once less. *)
Theorem ajax_request_effects srv endpoint ytcfg retries sleep timeout w :
  exists reqs s,
    snd (ajax_request srv endpoint ytcfg retries sleep timeout w)
    = mkWorld (posts w ++ reqs) (sleeps w ++ repeat sleep s)
    /\ (length reqs <= Z.to_nat retries)%nat
    /\ (s <= length reqs <= S s)%nat
    /\ Forall (request_of endpoint ytcfg timeout) reqs
    /\ forall r r', In r reqs -> In r' reqs -> r = r'.
Proof.
  assert (Hnone : forall w0 : world, w0 = w ->
            exists reqs s,
              w0 = mkWorld (posts w ++ reqs) (sleeps w ++ repeat sleep s)
              /\ (length reqs <= Z.to_nat retries)%nat
              /\ (s <= length reqs <= S s)%nat
              /\ Forall (request_of endpoint ytcfg timeout) reqs
              /\ forall r r', In r reqs -> In r' reqs -> r = r').
  { intros w0 ->. exists [], 0%nat. destruct w. simpl. rewrite !app_nil_r.
    split; [reflexivity|]. split; [simpl; lia|]. split; [simpl; lia|].
    split; [constructor | intros r r' []]. }
  unfold ajax_request.
  destruct (ajax_prepare endpoint ytcfg) as [[[url context] token]|e]
    eqn:Hprep; [|apply Hnone; reflexivity].
  destruct (getitem ytcfg (lit "INNERTUBE_API_KEY")) as [key|e] eqn:Hkey.
  - destruct (ajax_attempts_effects srv ytcfg url context token sleep
                timeout key (Z.to_nat retries) Hkey w) as [p [s [E [Hs Hp]]]].
    exists (repeat (mkRequest url key context token timeout) p), s.
    rewrite E, repeat_length.
    split; [reflexivity|]. split; [lia|]. split; [lia|]. split.
    + apply Forall_forall. intros r Hr. apply repeat_spec in Hr. subst r.
      unfold request_of. simpl. auto.
    + intros r r' Hr Hr'. apply repeat_spec in Hr, Hr'. congruence.
  - apply Hnone. eapply ajax_attempts_no_key. exact Hkey.
Qed.

Lemma ajax_request_after_retried srv endpoint ytcfg retries sleep timeout w
    url context token key k :
  ajax_prepare endpoint ytcfg = Ok (url, context, token) ->
  getitem ytcfg (lit "INNERTUBE_API_KEY") = Ok key ->
  (k <= Z.to_nat retries)%nat ->
  (forall i, (i < k)%nat ->
     retried (srv (length (posts w) + i)%nat) = true) ->
  ajax_request srv endpoint ytcfg retries sleep timeout w
  = ajax_attempts srv (Z.to_nat retries - k) ytcfg url context token sleep
      timeout
      (after_attempts w (mkRequest url key context token timeout) sleep k k).
Proof.
  intros Hprep Hkey Hk Hr. unfold ajax_request. rewrite Hprep.
  replace (Z.to_nat retries) with (k + (Z.to_nat retries - k))%nat at 1
    by lia.
  rewrite <- (after_attempts_zero w
                (mkRequest url key context token timeout) sleep) at 1.
  rewrite (ajax_attempts_retried srv ytcfg url context token sleep timeout
             key k Hkey); [reflexivity|].
  intros i Hi. rewrite Nat.add_0_r. apply Hr. exact Hi.
Qed.

(** X7: what [ajax_request] does not retry.  A missing field of the
    endpoint or of the configuration raises before any POST; a connection
    error that is not a timeout, and a 200 whose body is not JSON, raise
    at once, after the POST and without a sleep, however many attempts are
    left; and the pagination loop passes the exception on. *)
Theorem ajax_request_errors srv endpoint ytcfg retries sleep timeout w :
  (forall e, ajax_prepare endpoint ytcfg = Raise e ->
     ajax_request srv endpoint ytcfg retries sleep timeout w = (Raise e, w))
  /\ (forall url context token e,
        ajax_prepare endpoint ytcfg = Ok (url, context, token) ->
        getitem ytcfg (lit "INNERTUBE_API_KEY") = Raise e ->
        0 < retries ->
        ajax_request srv endpoint ytcfg retries sleep timeout w
        = (Raise e, w))
  /\ (forall url context token key k,
        ajax_prepare endpoint ytcfg = Ok (url, context, token) ->
        getitem ytcfg (lit "INNERTUBE_API_KEY") = Ok key ->
        (k < Z.to_nat retries)%nat ->
        (forall i, (i < k)%nat ->
           retried (srv (length (posts w) + i)%nat) = true) ->
        let req := mkRequest url key context token timeout in
        (srv (length (posts w) + k)%nat = Failure ->
         ajax_request srv endpoint ytcfg retries sleep timeout w
         = (Raise RequestException, after_attempts w req sleep (S k) k))
        /\ (srv (length (posts w) + k)%nat = Response 200 None ->
            ajax_request srv endpoint ytcfg retries sleep timeout w
            = (Raise ValueError, after_attempts w req sleep (S k) k))
        /\ (forall parse pause st rest n,
              pop (continuations st) = Some (endpoint, rest) ->
              retries = 5 -> sleep = 20%Q -> timeout = 60%Q ->
              srv (length (posts w) + k)%nat = Failure ->
              paginate (S n) srv parse ytcfg pause st w
              = ([], Raised RequestException,
                 after_attempts w req sleep (S k) k))).
Proof.
  split; [|split].
  - intros e He. unfold ajax_request. rewrite He. reflexivity.
  - intros url context token e Hprep Hkey Hpos. unfold ajax_request.
    rewrite Hprep. destruct (Z.to_nat retries) eqn:En; [lia|].
    simpl. rewrite Hkey. reflexivity.
  - intros url context token key k Hprep Hkey Hk Hr req.
    assert (Hcall : ajax_request srv endpoint ytcfg retries sleep timeout w
                    = ajax_attempts srv (S (Z.to_nat retries - S k)) ytcfg
                        url context token sleep timeout
                        (after_attempts w req sleep k k)).
    { rewrite (ajax_request_after_retried srv endpoint ytcfg retries sleep
                 timeout w url context token key k Hprep Hkey
                 ltac:(lia) Hr).
      replace (Z.to_nat retries - k)%nat
        with (S (Z.to_nat retries - S k)) by lia.
      reflexivity. }
    assert (Hfail : srv (length (posts w) + k)%nat = Failure ->
              ajax_request srv endpoint ytcfg retries sleep timeout w
              = (Raise RequestException,
                 after_attempts w req sleep (S k) k)).
    { intros Hs. rewrite Hcall. simpl. rewrite Hkey. fold req.
      rewrite length_app, repeat_length, Hs.
      fold (after_attempts w req sleep k k). rewrite after_attempts_post.
      reflexivity. }
    split; [exact Hfail|]. split.
    + intros Hs. rewrite Hcall. simpl. rewrite Hkey. fold req.
      rewrite length_app, repeat_length, Hs. simpl.
      fold (after_attempts w req sleep k k). rewrite after_attempts_post.
      reflexivity.
    + intros parse pause st rest n Hpop Hr5 Hs20 Ht60 Hs. simpl.
      unfold pass. rewrite Hpop. unfold ajax. rewrite <- Hr5, <- Hs20, <- Ht60.
      rewrite (Hfail Hs). reflexivity.
Qed.

Lemma ajax_request_errors_witness :
  ajax_request failing_server (example_endpoint "recent") example_ytcfg
    5 20 60 world0
  = (Raise RequestException,
     after_attempts world0 (example_request "recent") 20 3 2)
  /\ ajax_request garbled_server (example_endpoint "recent") example_ytcfg
       5 20 60 world0
     = (Raise ValueError,
        after_attempts world0 (example_request "recent") 20 1 0)
  /\ ajax_request example_server (JObj []) example_ytcfg 5 20 60 world0
     = (Raise KeyError, world0)
  /\ paginate 1 failing_server no_dates example_ytcfg (1 # 10)
       (first_locals "recent") world0
     = ([], Raised RequestException,
        after_attempts world0 (example_request "recent") 20 3 2).
Proof.
  destruct (ajax_request_errors failing_server (example_endpoint "recent")
              example_ytcfg 5 20 60 world0) as [_ [_ H]].
  destruct (H (lit "https://www.youtube.com/youtubei/v1/next")
              (JObj [(lit "client", JObj [(lit "hl", jstr "en")])])
              (jstr "recent") (jstr "key0") 2%nat eq_refl eq_refl
              ltac:(simpl; lia)) as [Hfail [_ Hloop]].
  { intros i Hi. unfold failing_server. simpl.
    destruct i as [|[|i]]; [reflexivity | reflexivity | lia]. }
  destruct (ajax_request_errors garbled_server (example_endpoint "recent")
              example_ytcfg 5 20 60 world0) as [_ [_ H']].
  destruct (H' (lit "https://www.youtube.com/youtubei/v1/next")
              (JObj [(lit "client", JObj [(lit "hl", jstr "en")])])
              (jstr "recent") (jstr "key0") 0%nat eq_refl eq_refl
              ltac:(simpl; lia)) as [_ [Hjson _]].
  { intros i Hi. lia. }
  destruct (ajax_request_errors example_server (JObj []) example_ytcfg
              5 20 60 world0) as [Hprep _].
  split; [apply Hfail; reflexivity|].
  split; [apply Hjson; reflexivity|].
  split; [apply Hprep; reflexivity|].
  apply (Hloop no_dates (1 # 10) (first_locals "recent") [] 0%nat);
    reflexivity.
Defined.

(** ** Disabled comments and the sort fallback *)

(** X8: without a configuration, without an item section, or when the
    item section that [search_dict] finds first is empty or has no
    continuation item, the generator ends at once as a normal end of
    stream: no record, no POST, no sleep, no error.  Other item sections of
    the page are not looked at. *)
Theorem comments_disabled_is_silent fuel srv parse ytcfg data sort_by sleep
    w :
  let run := get_comments_from_url fuel srv parse ytcfg data sort_by sleep w
  in
  (truthy ytcfg = false -> run = ([], Finished, w))
  /\ (search_dict data (lit "itemSectionRenderer") = [] ->
      run = ([], Finished, w))
  /\ (forall section others,
        search_dict data (lit "itemSectionRenderer") = section :: others ->
        truthy section = false
        \/ truthy (next_or (search_dict section
                              (lit "continuationItemRenderer")) JNull)
           = false ->
        run = ([], Finished, w)).
Proof.
  cbv zeta. unfold get_comments_from_url. split; [|split].
  - intros ->. reflexivity.
  - intros ->. simpl. destruct (negb (truthy ytcfg)); reflexivity.
  - intros section others -> H. simpl next_or.
    destruct (negb (truthy ytcfg)); [reflexivity|].
    destruct (truthy section); [|reflexivity].
    destruct H as [H | H]; [discriminate H|]. rewrite H. reflexivity.
Qed.

Lemma comments_disabled_is_silent_witness :
  get_comments_from_url 10 example_server no_dates example_ytcfg
    two_sections_data 1 (1 # 10) world0
  = ([], Finished, world0).
Proof.
  destruct (comments_disabled_is_silent 10 example_server no_dates
              example_ytcfg two_sections_data 1 (1 # 10) world0)
    as [_ [_ H]].
  apply (H (JObj [(lit "contents", JArr [])])
           [JObj [(lit "continuationItemRenderer",
                   JObj [(lit "trigger", jstr "scroll")])]]).
  - reflexivity.
  - right. reflexivity.
Defined.

Lemma get_comments_marker fuel srv parse ytcfg data sort_by sleep w :
  truthy ytcfg = true ->
  truthy (comments_marker data) = true ->
  get_comments_from_url fuel srv parse ytcfg data sort_by sleep w
  = match resolve_sort srv data ytcfg sort_by w with
    | (Raise e, w1) => ([], Raised e, w1)
    | (Ok queue, w1) =>
        paginate fuel srv parse ytcfg sleep (mkLocals queue [] [] []) w1
    end.
Proof.
  intros Hc Hm. unfold get_comments_from_url. rewrite Hc. simpl negb.
  cbv iota. unfold comments_marker in Hm. cbv zeta in Hm. rewrite Hm.
  reflexivity.
Qed.

(** X9: a page without a sort menu.  When its section list offers no
    continuation, the sort resolution raises ['无法设置排序'] without any
    POST.  When it offers one, [ajax_request] is called once, on the first
    continuation found, and when its five attempts are used up the sort
    resolution raises the same error: during sort resolution an exhausted
    retry is fatal, where in the pagination loop it ends the stream. *)
Theorem sort_fallback_exhaustion_is_fatal fuel srv parse ytcfg data sort_by
    sleep w menu :
  sort_menu_of data = Ok menu ->
  truthy menu = false ->
  (fallback_endpoints data = [] ->
   resolve_sort srv data ytcfg sort_by w
   = (Raise (RuntimeError cannot_sort), w))
  /\ (forall endpoint others url context token key,
        fallback_endpoints data = endpoint :: others ->
        ajax_prepare endpoint ytcfg = Ok (url, context, token) ->
        getitem ytcfg (lit "INNERTUBE_API_KEY") = Ok key ->
        (forall i, (i < 5)%nat ->
           retried (srv (length (posts w) + i)%nat) = true) ->
        let w1 := after_attempts w (mkRequest url key context token 60) 20
                    5 5 in
        resolve_sort srv data ytcfg sort_by w
        = (Raise (RuntimeError cannot_sort), w1)
        /\ (truthy ytcfg = true ->
            truthy (comments_marker data) = true ->
            get_comments_from_url fuel srv parse ytcfg data sort_by sleep w
            = ([], Raised (RuntimeError cannot_sort), w1))).
Proof.
  intros Hmenu Hfalsy.
  assert (Hresolve : resolve_sort srv data ytcfg sort_by w
            = match fallback_endpoints data with
              | [] => (Raise (RuntimeError cannot_sort), w)
              | endpoint :: _ =>
                  match ajax srv endpoint ytcfg w with
                  | (Ok data1, w2) =>
                      (sort_menu <- sort_menu_of data1 ;;
                       seed_queue sort_menu sort_by, w2)
                  | (Raise e, w2) => (Raise e, w2)
                  end
              end).
  { unfold resolve_sort, find_sort_menu. rewrite Hmenu, Hfalsy.
    fold (fallback_endpoints data).
    destruct (fallback_endpoints data) as [|endpoint others];
      [reflexivity|].
    destruct (ajax srv endpoint ytcfg w) as [[data1|e] w2]; [|reflexivity].
    destruct (sort_menu_of data1); reflexivity. }
  split.
  - intros Hf. rewrite Hresolve, Hf. reflexivity.
  - intros endpoint others url context token key Hf Hprep Hkey Hr.
    cbv zeta.
    assert (Hres : resolve_sort srv data ytcfg sort_by w
                   = (Raise (RuntimeError cannot_sort),
                      after_attempts w (mkRequest url key context token 60)
                        20 5 5)).
    { rewrite Hresolve, Hf. unfold ajax.
      rewrite (ajax_request_after_retried srv endpoint ytcfg 5 20 60 w url
                 context token key 5 Hprep Hkey ltac:(simpl; lia) Hr).
      reflexivity. }
    split; [exact Hres|].
    intros Hc Hm. rewrite (get_comments_marker _ _ _ _ _ _ _ _ Hc Hm), Hres.
    reflexivity.
Qed.

Lemma sort_fallback_exhaustion_is_fatal_witness :
  resolve_sort timeout_server no_menu_data example_ytcfg 1 world0
  = (Raise (RuntimeError cannot_sort),
     after_attempts world0 (example_request "section") 20 5 5)
  /\ get_comments_from_url 10 timeout_server no_dates example_ytcfg
       no_menu_data 1 (1 # 10) world0
     = ([], Raised (RuntimeError cannot_sort),
        after_attempts world0 (example_request "section") 20 5 5).
Proof.
  destruct (sort_fallback_exhaustion_is_fatal 10 timeout_server no_dates
              example_ytcfg no_menu_data 1 (1 # 10) world0 (JArr [])
              eq_refl eq_refl) as [_ H].
  destruct (H (example_endpoint "section") []
              (lit "https://www.youtube.com/youtubei/v1/next")
              (JObj [(lit "client", JObj [(lit "hl", jstr "en")])])
              (jstr "section") (jstr "key0") eq_refl eq_refl eq_refl
              (fun i _ => eq_refl)) as [H1 H2].
  split; [exact H1 | apply H2; reflexivity].
Defined.

(** X10: the sort index against a menu of [n] entries.  An empty menu or
    an index of [n] or more raises ['无法设置排序']; an index below [-n]
    raises [IndexError]; an index from [-n] to [n - 1] selects the entry
    at the index modulo [n], and the queue is seeded with the
    [serviceEndpoint] of that entry alone, or a [KeyError] is raised when
    the entry has none. *)
Theorem seed_queue_cases entries sort_by :
  let n := Z.of_nat (length entries) in
  (entries = [] \/ n <= sort_by ->
   seed_queue (JArr entries) sort_by = Raise (RuntimeError cannot_sort))
  /\ (entries <> [] -> sort_by < - n ->
      seed_queue (JArr entries) sort_by = Raise IndexError)
  /\ (- n <= sort_by < n ->
      exists entry,
        nth_error entries (Z.to_nat (sort_by mod n)) = Some entry
        /\ seed_queue (JArr entries) sort_by
           = (endpoint <- getitem entry (lit "serviceEndpoint") ;;
              Ok [endpoint])).
Proof.
  cbv zeta. split; [|split].
  - intros [-> | Hle]; [reflexivity|].
    destruct (Z_lt_le_dec sort_by 0) as [Hneg | Hpos].
    + pose proof (Nat2Z.is_nonneg (length entries)). lia.
    + rewrite (seed_queue_in_range entries sort_by Hpos).
      destruct (nth_error entries (Z.to_nat sort_by)) eqn:Hn;
        [|reflexivity].
      assert (Z.to_nat sort_by < length entries)%nat
        by (apply nth_error_Some; congruence).
      lia.
  - intros Hne Hlt. unfold seed_queue.
    destruct entries as [|entry entries]; [destruct (Hne eq_refl)|].
    simpl truthy. cbn [negb len bind]. remember (entry :: entries) as l.
    replace (Z.of_nat (length l) <=? sort_by) with false
      by (symmetry; apply Z.leb_gt; lia).
    unfold getitem_int.
    replace (sort_by <? - Z.of_nat (length l)) with true
      by (symmetry; apply Z.ltb_lt; lia).
    reflexivity.
  - intros [Hlo Hhi].
    destruct (Z_lt_le_dec sort_by 0) as [Hneg | Hpos].
    + rewrite (seed_queue_negative entries sort_by ltac:(lia)).
      replace (sort_by mod Z.of_nat (length entries))
        with (sort_by + Z.of_nat (length entries)).
      * destruct (nth_error entries
                    (Z.to_nat (sort_by + Z.of_nat (length entries))))
          as [entry|] eqn:Hn; [eauto|].
        apply nth_error_None in Hn. lia.
      * apply (Z.mod_unique _ _ (-1)); lia.
    + rewrite (seed_queue_in_range entries sort_by Hpos).
      rewrite Z.mod_small by lia.
      destruct (nth_error entries (Z.to_nat sort_by)) as [entry|] eqn:Hn;
        [eauto|].
      apply nth_error_None in Hn. lia.
Qed.

Lemma seed_queue_cases_witness :
  seed_queue example_menu 5 = Raise (RuntimeError cannot_sort)
  /\ seed_queue example_menu (-7) = Raise IndexError
  /\ exists entry,
       nth_error [JObj [(lit "serviceEndpoint", example_endpoint "popular")];
                  JObj [(lit "serviceEndpoint", example_endpoint "recent")]]
         (Z.to_nat (0 mod 2)) = Some entry
       /\ seed_queue example_menu 0
          = (endpoint <- getitem entry (lit "serviceEndpoint") ;;
             Ok [endpoint]).
Proof.
  split; [|split].
  - apply (seed_queue_cases
             [JObj [(lit "serviceEndpoint", example_endpoint "popular")];
              JObj [(lit "serviceEndpoint", example_endpoint "recent")]] 5).
    right. simpl. lia.
  - apply (seed_queue_cases
             [JObj [(lit "serviceEndpoint", example_endpoint "popular")];
              JObj [(lit "serviceEndpoint", example_endpoint "recent")]]
             (-7)).
    + discriminate.
    + simpl. lia.
  - apply (seed_queue_cases
             [JObj [(lit "serviceEndpoint", example_endpoint "popular")];
              JObj [(lit "serviceEndpoint", example_endpoint "recent")]] 0).
    simpl. lia.
Defined.

(** ** Errors reported by the platform *)

(** X11: when the first [externalErrorMessage] that [search_dict] finds in
    a response is a non-empty string, the generator raises a
    [RuntimeError] whose message is ['服务器返回错误: '] followed by it,
    right after the request: no record of that response is yielded, no
    continuation of it is requested, no sleep follows.  A true value that
    is not a string makes the concatenation raise a [TypeError]
    instead. *)
Theorem external_error_aborts n srv parse ytcfg sleep st w continuation
    rest response w1 error others :
  pop (continuations st) = Some (continuation, rest) ->
  ajax srv continuation ytcfg w = (Ok response, w1) ->
  search_dict response (lit "externalErrorMessage") = error :: others ->
  truthy error = true ->
  exists e,
    paginate (S n) srv parse ytcfg sleep st w = ([], Raised e, w1)
    /\ (forall msg, error = JStr msg ->
          e = RuntimeError (server_error_prefix ++ msg))
    /\ ((forall msg, error <> JStr msg) -> e = TypeError).
Proof.
  intros Hpop Hajax Herr Ht. exists (server_error error). split.
  - simpl. unfold pass. rewrite Hpop, Hajax.
    destruct (truthy response) eqn:Hresp.
    + simpl. rewrite Herr. simpl. rewrite Ht. reflexivity.
    + rewrite (falsy_no_entities _ _ Hresp) in Herr. discriminate Herr.
  - split.
    + intros msg ->. reflexivity.
    + intros Hns. destruct error; try reflexivity.
      destruct (Hns s eq_refl).
Qed.

Lemma external_error_aborts_witness :
  exists e,
    paginate 3 error_server no_dates example_ytcfg (1 # 10)
      (first_locals "recent") world0
    = ([], Raised e,
       after_attempts world0 (example_request "recent") 20 1 0)
    /\ (forall msg, jstr "Comments are off" = JStr msg ->
          e = RuntimeError (server_error_prefix ++ msg))
    /\ ((forall msg, jstr "Comments are off" <> JStr msg) -> e = TypeError).
Proof.
  apply (external_error_aborts 2 error_server no_dates example_ytcfg
           (1 # 10) (first_locals "recent") world0
           (example_endpoint "recent") [] error_page
           (after_attempts world0 (example_request "recent") 20 1 0)
           (jstr "Comments are off") []); reflexivity.
Defined.

(** ** Termination of the pagination loop *)

Lemma ajax_attempts_source srv ytcfg url context token sleep timeout n :
  forall w response w',
  ajax_attempts srv n ytcfg url context token sleep timeout w
  = (Ok response, w') ->
  response = JNull \/ response = JObj []
  \/ exists i, srv i = Response 200 (Some response).
Proof.
  induction n as [|n IH]; intros w response w'; simpl.
  - intros H. injection H as <- _. auto.
  - destruct (getitem ytcfg (lit "INNERTUBE_API_KEY")) as [key|e];
      [|discriminate].
    destruct (srv (length (posts w))) as [status body| |] eqn:Hs.
    + destruct (status =? 200) eqn:H200.
      * apply Z.eqb_eq in H200. subst status.
        destruct body as [j|]; [|discriminate].
        intros H. injection H as <- _. eauto.
      * destruct ((status =? 403) || (status =? 413)).
        -- intros H. injection H as <- _. auto.
        -- apply IH.
    + apply IH.
    + discriminate.
Qed.

Lemma quiet_no_actions srv endpoint ytcfg w response w1 :
  quiet srv ->
  ajax srv endpoint ytcfg w = (Ok response, w1) ->
  actions_of response = [].
Proof.
  intros Hq. unfold ajax, ajax_request.
  destruct (ajax_prepare endpoint ytcfg) as [[[url context] token]|e];
    [|discriminate].
  intros H. apply ajax_attempts_source in H.
  destruct H as [-> | [-> | [i Hi]]]; [reflexivity | reflexivity|].
  eapply Hq. exact Hi.
Qed.

Lemma pass_quiet srv parse ytcfg sleep st w rs st1 w1 :
  quiet srv ->
  pass srv parse ytcfg sleep st w = (rs, Continue st1, w1) ->
  length (continuations st) = S (length (continuations st1)).
Proof.
  intros Hq H. apply pass_continue_inv in H.
  destruct H as [continuation [rest [response [w0 H]]]].
  destruct H as [Hpop [Hajax [Hrec _]]].
  apply pop_some_inv in Hpop. apply reconcile_queue in Hrec.
  unfold collect_continuations in Hrec.
  rewrite (quiet_no_actions _ _ _ _ _ _ Hq Hajax) in Hrec. simpl in Hrec.
  injection Hrec as Hrec. rewrite Hpop, <- Hrec, length_app. simpl. lia.
Qed.

Lemma pass_never_pending srv parse ytcfg sleep st w rs e w1 :
  pass srv parse ytcfg sleep st w = (rs, Stop e, w1) -> e <> Pending.
Proof.
  unfold pass.
  destruct (pop (continuations st)) as [[continuation rest]|];
    [|intros H; injection H as _ <- _; discriminate].
  destruct (ajax srv continuation ytcfg w) as [[response|e0] w0];
    [|intros H; injection H as _ <- _; discriminate].
  destruct (negb (truthy response));
    [intros H; injection H as _ <- _; discriminate|].
  destruct (truthy _); [intros H; injection H as _ <- _; discriminate|].
  destruct (reconcile response rest st) as [st1|e0];
    [|intros H; injection H as _ <- _; discriminate].
  destruct (emit parse st1 (entities_of response)) as [rs1 [e0|]];
    [intros H; injection H as _ <- _; discriminate | discriminate].
Qed.

(** X12: when no response of the platform carries a continuation, the
    pagination loop ends after at most one pass for each continuation
    queued and a last test of the queue: with more fuel than that the
    model never stops for lack of fuel, and the records, the end and the
    effects are the same for every such amount of fuel. *)
Theorem pagination_terminates_without_continuations srv parse ytcfg sleep :
  quiet srv ->
  forall fuel fuel' st w,
  (length (continuations st) < fuel)%nat ->
  (fuel <= fuel')%nat ->
  snd (fst (paginate fuel srv parse ytcfg sleep st w)) <> Pending
  /\ paginate fuel' srv parse ytcfg sleep st w
     = paginate fuel srv parse ytcfg sleep st w.
Proof.
  intros Hq. induction fuel as [|n IH]; intros fuel' st w Hlen Hle; [lia|].
  destruct fuel' as [|n']; [lia|]. simpl.
  destruct (pass srv parse ytcfg sleep st w) as [[rs [st1|e]] w1] eqn:Hp.
  - pose proof (pass_quiet _ _ _ _ _ _ _ _ _ Hq Hp) as Hq1.
    destruct (IH n' st1 w1 ltac:(lia) ltac:(lia)) as [Hpend Heq].
    rewrite Heq.
    destruct (paginate n srv parse ytcfg sleep st1 w1) as [[rs2 e2] w2].
    simpl in *. split; [exact Hpend | reflexivity].
  - simpl. split; [|reflexivity]. eapply pass_never_pending. exact Hp.
Qed.

Lemma pagination_terminates_without_continuations_witness :
  snd (fst (paginate 2 empty_server no_dates example_ytcfg (1 # 10)
              (first_locals "recent") world0)) <> Pending
  /\ paginate 50 empty_server no_dates example_ytcfg (1 # 10)
       (first_locals "recent") world0
     = paginate 2 empty_server no_dates example_ytcfg (1 # 10)
         (first_locals "recent") world0.
Proof.
  apply (pagination_terminates_without_continuations empty_server no_dates
           example_ytcfg (1 # 10)).
  - intros n body H. unfold empty_server in H. injection H as <-.
    reflexivity.
  - simpl. lia.
  - lia.
Defined.

(** ** to_json *)

Lemma splitlines_concat n :
  forall s cur, (length s <= n)%nat ->
  concat (splitlines cur s) = cur ++ s
  /\ Forall (fun line => line <> []) (splitlines cur s).
Proof.
  induction n as [|n IH]; intros s cur Hlen.
  - destruct s; [|simpl in Hlen; lia]. simpl. destruct cur as [|c cur].
    + split; [reflexivity | constructor].
    + simpl. rewrite !app_nil_r. split; [reflexivity|].
      constructor; [discriminate | constructor].
  - destruct s as [|c s].
    + simpl. destruct cur as [|c cur].
      * split; [reflexivity | constructor].
      * simpl. rewrite !app_nil_r. split; [reflexivity|].
        constructor; [discriminate | constructor].
    + simpl in Hlen. simpl.
      assert (Hline : forall line rest,
                (length rest <= n)%nat ->
                line <> [] ->
                concat (line :: splitlines [] rest) = line ++ rest
                /\ Forall (fun l => l <> []) (line :: splitlines [] rest)).
      { intros line rest Hr Hne. destruct (IH rest [] Hr) as [E F].
        simpl. rewrite E. split; [reflexivity|]. constructor; assumption. }
      destruct (c =? 13)%N.
      * destruct s as [|d s].
        -- destruct (Hline (cur ++ [c]) [] ltac:(simpl; lia)) as [E F].
           { destruct cur; discriminate. }
           rewrite E. rewrite <- app_assoc. split; [reflexivity | exact F].
        -- destruct (d =? 10)%N.
           ++ destruct (Hline (cur ++ [c; d]) s) as [E F].
              { simpl in Hlen. lia. }
              { destruct cur; discriminate. }
              rewrite E, <- app_assoc. split; [reflexivity | exact F].
           ++ destruct (Hline (cur ++ [c]) (d :: s) ltac:(lia)) as [E F].
              { destruct cur; discriminate. }
              rewrite E, <- app_assoc. split; [reflexivity | exact F].
      * destruct (is_linebreak c).
        -- destruct (Hline (cur ++ [c]) s ltac:(lia)) as [E F].
           { destruct cur; discriminate. }
           rewrite E, <- app_assoc. split; [reflexivity | exact F].
        -- destruct (IH s (cur ++ [c]) ltac:(lia)) as [E F].
           rewrite E, <- app_assoc. split; [reflexivity | exact F].
Qed.

Lemma length_concat_padded (p : pystr) lines :
  length (concat (map (app p) lines))
  = (length (concat lines) + length p * length lines)%nat.
Proof.
  induction lines as [|l lines IH]; simpl; [lia|].
  rewrite !length_app, IH. lia.
Qed.

Lemma unbroken_app a b : unbroken (a ++ b) = unbroken a && unbroken b.
Proof. apply forallb_app. Qed.

(** [splitlines] cuts the text at its line boundaries. *)
Lemma splitlines_lines n :
  forall s cur, (length s <= n)%nat ->
  unbroken cur = true ->
  lines_of (cur ++ s) (splitlines cur s).
Proof.
  induction n as [|n IH]; intros s cur Hlen Hcur.
  - destruct s; [|simpl in Hlen; lia]. rewrite app_nil_r. simpl.
    destruct cur as [|c cur]; [constructor|].
    apply lines_last; [discriminate | exact Hcur].
  - destruct s as [|c s].
    + rewrite app_nil_r. simpl. destruct cur as [|c cur]; [constructor|].
      apply lines_last; [discriminate | exact Hcur].
    + simpl in Hlen. simpl. destruct (c =? 13)%N eqn:Hcr.
      * apply N.eqb_eq in Hcr. subst c. destruct s as [|d s].
        -- apply lines_ended; [exact Hcur | reflexivity | | constructor].
           intros _. discriminate.
        -- destruct (d =? 10)%N eqn:Hlf.
           ++ apply N.eqb_eq in Hlf. subst d.
              apply lines_crlf; [exact Hcur|].
              apply (IH s []); [simpl in Hlen; lia | reflexivity].
           ++ apply lines_ended; [exact Hcur | reflexivity | |].
              ** intros _ H. injection H as ->.
                 rewrite N.eqb_refl in Hlf. discriminate.
              ** apply (IH (d :: s) []); [lia | reflexivity].
      * destruct (is_linebreak c) eqn:Hbr.
        -- apply lines_ended; [exact Hcur | exact Hbr | |].
           ++ intros ->. discriminate.
           ++ apply (IH s []); [lia | reflexivity].
        -- replace (cur ++ c :: s) with ((cur ++ [c]) ++ s)
             by (rewrite <- app_assoc; reflexivity).
           apply IH; [lia|]. rewrite unbroken_app, Hcur. simpl.
           rewrite Hbr. reflexivity.
Qed.

(** A text is cut at its first line boundary in one way only. *)
Lemma first_boundary_unique a c s a' c' s' :
  unbroken a = true -> is_linebreak c = true ->
  unbroken a' = true -> is_linebreak c' = true ->
  a ++ c :: s = a' ++ c' :: s' ->
  a = a' /\ c = c' /\ s = s'.
Proof.
  revert a'. induction a as [|x a IH]; intros [|x' a'] Ha Hc Ha' Hc' E;
    simpl in *.
  - injection E as -> ->. auto.
  - injection E as -> _. rewrite Hc in Ha'. discriminate.
  - injection E as -> _. rewrite Hc' in Ha. discriminate.
  - injection E as -> E. apply andb_true_iff in Ha, Ha'.
    destruct (IH a' (proj2 Ha) Hc (proj2 Ha') Hc' E) as [-> [-> ->]]. auto.
Qed.

Lemma unbroken_no_boundary a c s : unbroken (a ++ c :: s) = true ->
  is_linebreak c = false.
Proof.
  rewrite unbroken_app. simpl. intros H.
  apply andb_true_iff in H. destruct H as [_ H].
  apply andb_true_iff in H. destruct H as [H _].
  apply negb_true_iff in H. exact H.
Qed.

(** The lines of a text are determined by the text. *)
Lemma lines_of_unique text lines :
  lines_of text lines ->
  forall lines', lines_of text lines' -> lines' = lines.
Proof.
  induction 1 as [|line Hne Hl|line c rest lines Hl Hc Hlf Hrest IH
                  |line rest lines Hl Hrest IH];
    intros lines' H'.
  - inversion H' as [|l Hne' Hl' E|l c' r ls Hl' Hc' _ _ E|l r ls Hl' _ E].
    + reflexivity.
    + subst. contradiction.
    + destruct l; discriminate E.
    + destruct l; discriminate E.
  - inversion H' as [E|l Hne' Hl' E|l c' r ls Hl' Hc' _ _ E|l r ls Hl' _ E].
    + subst. contradiction.
    + reflexivity.
    + subst line. apply unbroken_no_boundary in Hl. congruence.
    + subst line. apply unbroken_no_boundary in Hl. discriminate Hl.
  - inversion H' as [E|l Hne' Hl' E|l c' r ls Hl' Hc' Hlf' Hr' E
                     |l r ls Hl' Hr' E].
    + destruct line; discriminate E.
    + subst l. apply unbroken_no_boundary in Hl'. congruence.
    + destruct (first_boundary_unique _ _ _ _ _ _ Hl' Hc' Hl Hc E)
        as [-> [-> ->]].
      rewrite (IH _ Hr'). reflexivity.
    + destruct (first_boundary_unique l 13%N (10%N :: r) _ _ _ Hl'
                  eq_refl Hl Hc E) as [-> [<- <-]].
      exfalso. apply Hlf; reflexivity.
  - inversion H' as [E|l Hne' Hl' E|l c' r ls Hl' Hc' Hlf' Hr' E
                     |l r ls Hl' Hr' E].
    + destruct line; discriminate E.
    + subst l. apply unbroken_no_boundary in Hl'. discriminate Hl'.
    + destruct (first_boundary_unique l c' r line 13%N (10%N :: rest) Hl'
                  Hc' Hl eq_refl E) as [-> [-> ->]].
      exfalso. apply Hlf'; reflexivity.
    + destruct (first_boundary_unique l 13%N (10%N :: r) line 13%N
                  (10%N :: rest) Hl' eq_refl Hl eq_refl E) as [-> [_ E']].
      injection E' as ->. rewrite (IH _ Hr'). reflexivity.
Qed.

(** X13: [to_json] keeps the text of [json.dumps].  Without an indent, and
    with the indent 0, it returns it unchanged; with another indent it
    returns the lines of the text, each preceded by [2 * indent] spaces.
    The lines are those of [str.splitlines]: each runs up to and including
    the next line boundary, CR LF being one boundary, and the text
    determines them; none is empty and together they are the whole text,
    so that the result is longer by the padding times the number of
    lines. *)
Theorem to_json_keeps_text dumps comment :
  to_json dumps comment None = dumps comment None
  /\ to_json dumps comment (Some 0) = dumps comment (Some 0)
  /\ forall indent,
       exists lines,
         lines_of (dumps comment (Some indent)) lines
         /\ (forall lines',
               lines_of (dumps comment (Some indent)) lines' ->
               lines' = lines)
         /\ concat lines = dumps comment (Some indent)
         /\ Forall (fun line => line <> []) lines
         /\ to_json dumps comment (Some indent)
            = concat (map (app (padding_of indent)) lines)
         /\ length (to_json dumps comment (Some indent))
            = (length (dumps comment (Some indent))
               + length (padding_of indent) * length lines)%nat.
Proof.
  assert (Hsplit : forall s,
            concat (splitlines [] s) = s
            /\ Forall (fun line => line <> []) (splitlines [] s)).
  { intros s. apply (splitlines_concat (length s)). lia. }
  assert (Hlines : forall s, lines_of s (splitlines [] s)).
  { intros s. apply (splitlines_lines (length s) s []); [lia|reflexivity]. }
  split; [reflexivity|]. split.
  - unfold to_json. simpl. rewrite map_id. apply Hsplit.
  - intros indent. exists (splitlines [] (dumps comment (Some indent))).
    destruct (Hsplit (dumps comment (Some indent))) as [E F].
    split; [apply Hlines|].
    split; [apply lines_of_unique; apply Hlines|].
    split; [exact E|]. split; [exact F|]. split; [reflexivity|].
    unfold to_json. fold (padding_of indent).
    rewrite length_concat_padded, E. reflexivity.
Qed.

Lemma to_json_keeps_text_witness :
  to_json two_line_dumps (numbered 0) (Some 0) = lit "{" ++ nl ++ lit "}"
  /\ to_json two_line_dumps (numbered 0) (Some INDENT)
     = spaces 8 ++ lit "{" ++ nl ++ spaces 8 ++ lit "}".
Proof.
  destruct (to_json_keeps_text two_line_dumps (numbered 0)) as [_ [H0 H]].
  split; [exact H0|].
  destruct (H INDENT) as [lines [_ [Hu [_ [_ [E _]]]]]].
  rewrite E, <- (Hu [lit "{" ++ nl; lit "}"]); [reflexivity|].
  apply (lines_ended (lit "{") 10%N (lit "}") [lit "}"]).
  - reflexivity.
  - reflexivity.
  - discriminate.
  - apply lines_last; [discriminate | reflexivity].
Defined.

(** ** download_comments on a whole feed *)










(** ** The toolbar table *)

Lemma key_eqb_refl k : hashable k = true -> key_eqb k k = true.
Proof.
  destruct k as [| b | z | s | l | kv]; simpl; try discriminate; intros _.
  - reflexivity.
  - destruct b; reflexivity.
  - apply Z.eqb_refl.
  - apply pystr_eqb_refl.
Qed.

Lemma key_eqb_eq_trans a b c :
  key_eqb a b = true -> key_eqb b c = true -> key_eqb a c = true.
Proof.
  destruct a as [| x | x | x | x | x], b as [| y | y | y | y | y],
    c as [| z | z | z | z | z]; simpl; try discriminate; try reflexivity;
    intros H1 H2;
    repeat match goal with
           | H : Bool.eqb _ _ = true |- _ => apply eqb_prop in H; subst
           | H : (_ =? _) = true |- _ => apply Z.eqb_eq in H; subst
           | H : pystr_eqb _ _ = true |- _ => apply pystr_eqb_eq in H; subst
           end;
    try (destruct x; reflexivity); try (destruct y; reflexivity);
    try (destruct z; reflexivity);
    try apply Z.eqb_refl; try apply pystr_eqb_refl;
    try (destruct x, z; simpl in *; congruence);
    try (destruct x, y; simpl in *; congruence);
    try (destruct y, z; simpl in *; congruence).
Qed.

Lemma key_eqb_sym a b : key_eqb a b = key_eqb b a.
Proof.
  destruct a as [| x | x | x | x | x], b as [| y | y | y | y | y]; simpl;
    try reflexivity.
  - destruct x, y; reflexivity.
  - apply Z.eqb_sym.
  - destruct (pystr_eqb x y) eqn:E.
    + apply pystr_eqb_eq in E. subst. symmetry. apply pystr_eqb_refl.
    + destruct (pystr_eqb y x) eqn:E'; [|reflexivity].
      apply pystr_eqb_eq in E'. subst. rewrite pystr_eqb_refl in E.
      discriminate E.
Qed.

(** Lookup after insertion, at the key inserted and at another key. *)
Lemma dict_find_set_same {V} (d : pydict V) k v :
  hashable k = true -> dict_find (dict_set d k v) k = Some v.
Proof.
  intros Hk. induction d as [|[k' v'] d IH]; simpl.
  - rewrite (key_eqb_refl k Hk). reflexivity.
  - destruct (key_eqb k' k) eqn:E; simpl; rewrite E; [reflexivity | exact IH].
Qed.

Lemma dict_find_set_other {V} (d : pydict V) k2 v k :
  key_eqb k2 k = false -> dict_find (dict_set d k2 v) k = dict_find d k.
Proof.
  intros Hne. induction d as [|[k' v'] d IH]; simpl.
  - rewrite Hne. reflexivity.
  - destruct (key_eqb k' k2) eqn:E; simpl.
    + destruct (key_eqb k' k) eqn:E'; [|reflexivity].
      rewrite key_eqb_sym in E.
      rewrite (key_eqb_eq_trans k2 k' k E E') in Hne. discriminate Hne.
    + destruct (key_eqb k' k); [reflexivity | exact IH].
Qed.

Lemma foldM_app {A B} (f : B -> A -> result B) l1 l2 acc :
  foldM f (l1 ++ l2) acc = (acc' <- foldM f l1 acc ;; foldM f l2 acc').
Proof.
  revert acc. induction l1 as [|x l1 IH]; intros acc; simpl; [reflexivity|].
  destruct (f acc x); simpl; [apply IH | reflexivity].
Qed.

(** X17: the toolbar table of a response maps the key of each toolbar
    payload to the last payload found under that key: the subscript with
    the key of a payload succeeds, and gives that payload when no payload
    found after it has an equal key. *)
Theorem toolbar_table_last_wins response st st1 before payload after key :
  side_toolbars response st = Ok st1 ->
  search_dict response (lit "engagementToolbarStateEntityPayload")
  = before ++ payload :: after ->
  getitem payload (lit "key") = Ok key ->
  (forall q kq, In q after -> getitem q (lit "key") = Ok kq ->
     key_eqb kq key = false) ->
  dict_getitem (toolbar_states st1) key = Ok payload.
Proof.
  unfold side_toolbars. intros H Hsearch Hkey Hafter.
  apply bind_ok in H. destruct H as [table [Hfold H]].
  injection H as <-. simpl. rewrite Hsearch, foldM_app in Hfold.
  apply bind_ok in Hfold. destruct Hfold as [d0 [_ Hfold]].
  simpl in Hfold. apply bind_ok in Hfold. destruct Hfold as [d1 [Hadd Hfold]].
  unfold add_toolbar_state in Hadd. rewrite Hkey in Hadd. simpl in Hadd.
  unfold dict_setitem in Hadd.
  destruct (hashable key) eqn:Hh; [|discriminate Hadd].
  injection Hadd as <-.
  assert (Hfind : dict_find table key = Some payload).
  { refine (foldM_inv _ (fun acc => dict_find acc key = Some payload)
              _ _ _ _ _ Hfold).
    - apply dict_find_set_same. exact Hh.
    - intros acc q acc' Hin Hacc Hstep. unfold add_toolbar_state in Hstep.
      apply bind_ok in Hstep. destruct Hstep as [kq [Hkq Hstep]].
      unfold dict_setitem in Hstep.
      destruct (hashable kq); [|discriminate Hstep].
      injection Hstep as <-.
      rewrite (dict_find_set_other acc kq q key (Hafter q kq Hin Hkq)).
      exact Hacc. }
  unfold dict_getitem. rewrite Hh, Hfind. reflexivity.
Qed.

Lemma toolbar_table_last_wins_witness :
  dict_getitem (toolbar_states (tables_of duplicate_page)) (jstr "state1")
  = Ok later_state
  /\ map heart
       (fst (emit no_dates (tables_of duplicate_page)
               (entities_of duplicate_page)))
     = [false].
Proof.
  split; [|reflexivity].
  apply (toolbar_table_last_wins duplicate_page (mkLocals [] [] [] [])
           (tables_of duplicate_page) [hearted_state] later_state []
           (jstr "state1")).
  - reflexivity.
  - reflexivity.
  - reflexivity.
  - intros q kq [].
Defined.

(** ** download_comments reads the feed in step *)






(** ** Paid badges *)







(** ** What the continuation scan ignores and what it rejects *)

Lemma scan_action_items queue action items :
  items_of action = Ok items ->
  scan_action queue action = foldM (scan_item action) items queue.
Proof.
  unfold items_of, scan_action. intros H.
  destruct (get action (lit "continuationItems") (JArr [])) as [j|e];
    [|discriminate H].
  simpl in *. rewrite H. reflexivity.
Qed.

(** X20: an action without items leaves the queue as it is, even when it
    has no [targetId]; an action whose target names neither a comment
    section nor a reply thread leaves the queue as it is, whatever its
    items hold; an action with items and no [targetId] raises [KeyError];
    and an unexpanded reply item without a [buttonRenderer] raises the
    [RuntimeError] that Python makes of a [StopIteration] inside a
    generator. *)
Theorem continuation_scan_edges queue action items :
  items_of action = Ok items ->
  (items = [] -> scan_action queue action = Ok queue)
  /\ (forall target,
        getitem action (lit "targetId") = Ok (JStr target) ->
        existsb (is_str (JStr target)) comment_sections = false ->
        startswith target (lit "comment-replies-item") = false ->
        scan_action queue action = Ok queue)
  /\ (forall e item rest,
        items = item :: rest ->
        getitem action (lit "targetId") = Raise e ->
        scan_action queue action = Raise e)
  /\ (forall target item rest,
        items = item :: rest ->
        getitem action (lit "targetId") = Ok (JStr target) ->
        startswith target (lit "comment-replies-item") = true ->
        contains item (lit "continuationItemRenderer") = Ok true ->
        search_dict item (lit "buttonRenderer") = [] ->
        scan_action queue action
        = Raise (RuntimeError (lit "generator raised StopIteration"))).
Proof.
  intros Hitems. rewrite (scan_action_items queue action items Hitems).
  split; [|split; [|split]].
  - intros ->. reflexivity.
  - intros target Ht Hsec Hrep. clear Hitems.
    induction items as [|item items IH]; [reflexivity|]. simpl.
    unfold scan_item at 1. rewrite Ht. cbn [bind]. rewrite Hsec, Hrep.
    cbn [bind]. exact IH.
  - intros e item rest -> Ht. simpl. unfold scan_item. rewrite Ht.
    reflexivity.
  - intros target item rest -> Ht Hrep Hmore Hbutton. simpl.
    unfold scan_item. rewrite Ht. cbn [bind]. rewrite Hrep. cbn [bind].
    rewrite Hmore. cbn [bind]. rewrite Hbutton. reflexivity.
Qed.

Lemma continuation_scan_edges_witness :
  scan_action [example_endpoint "queued"] other_action
  = Ok [example_endpoint "queued"]
  /\ scan_action [example_endpoint "queued"] buttonless_action
     = Raise (RuntimeError (lit "generator raised StopIteration"))
  /\ scan_action [example_endpoint "queued"] (JObj [])
     = Ok [example_endpoint "queued"].
Proof.
  destruct (continuation_scan_edges [example_endpoint "queued"] other_action
              [next_page_item] eq_refl) as [_ [Hother _]].
  destruct (continuation_scan_edges [example_endpoint "queued"]
              buttonless_action
              [JObj [(lit "continuationItemRenderer", JObj [])]] eq_refl)
    as [_ [_ [_ Hbutton]]].
  destruct (continuation_scan_edges [example_endpoint "queued"] (JObj [])
              [] eq_refl) as [Hempty _].
  split; [|split].
  - apply (Hother (lit "watch-next-feed")); reflexivity.
  - apply (Hbutton (lit "comment-replies-item-c1")
             (JObj [(lit "continuationItemRenderer", JObj [])]) []);
      reflexivity.
  - apply Hempty. reflexivity.
Defined.
